(** * Scenario graph editor (frontend/js/scenario_editor.js)

    A shallow embedding of the [ScenarioEditor] class: the node and
    connection arrays, the pan/zoom viewport, and the operations that edit
    and inspect them.

    Conventions of the embedding.
    - JavaScript numbers that hold coordinates and scales are exact
      rationals ([Q]); node ids, which come from [Date.now()], are integers
      ([Z]).  Rounding of IEEE doubles is not modelled: results about
      ranges, order and structure do not depend on it, and equalities
      between computed coordinates, written with [==], hold in the program
      up to rounding.
    - A node is a JavaScript object.  [Array.prototype.indexOf] and [===]
      compare objects by identity, so every node carries the address of its
      object ([Node.addr]); two nodes are the same object iff their
      addresses agree.
    - Reading the clock ([Date.now()]) is an input of the operation that
      reads it.
    - Canvas drawing and DOM updates ([draw], [updateStats],
      [showNodeProperties]) leave the editor's fields untouched and are not
      part of the state; notifications sent to
      [VRARPlatform.showNotification] are returned as a list. *)

From Stdlib Require Import List String Ascii ZArith QArith Qminmax Qabs Bool Lia Lqa.
From Stdlib Require Import DecimalString.
Import ListNotations.
Open Scope string_scope.
Open Scope list_scope.

(** ** JavaScript values held by nodes *)

Inductive JSValue : Type :=
| JSString (s : string)
| JSNumber (z : Z)
| JSBool (b : bool)
| JSEmptyArray
| JSEmptyObject
| JSInherited (key : string).
(** [JSEmptyArray] and [JSEmptyObject] are the literals [[]] and [{}], the
    only arrays and objects the editor stores in a property bag.
    [JSInherited key] is the member that [Object.prototype] supplies under
    [key] (a built-in function, or the prototype itself for ["__proto__"]). *)

(** Property names every object literal inherits from [Object.prototype]
    in a browser. *)
Definition Object_prototype_keys : list string :=
  [ "constructor"; "hasOwnProperty"; "isPrototypeOf"; "propertyIsEnumerable";
    "toLocaleString"; "toString"; "valueOf"; "__proto__";
    "__defineGetter__"; "__defineSetter__"; "__lookupGetter__";
    "__lookupSetter__" ].

Fixpoint own_property (fields : list (string * JSValue)) (key : string)
  : option JSValue :=
  match fields with
  | [] => None
  | (k, v) :: rest => if String.eqb k key then Some v else own_property rest key
  end.

(** [obj[key]] on an object literal: own properties first, then the
    prototype; [None] is [undefined]. *)
Definition get_property (fields : list (string * JSValue)) (key : string)
  : option JSValue :=
  match own_property fields key with
  | Some v => Some v
  | None =>
      if existsb (String.eqb key) Object_prototype_keys
      then Some (JSInherited key)
      else None
  end.

Definition truthy (v : JSValue) : bool :=
  match v with
  | JSString s => negb (String.eqb s EmptyString)
  | JSNumber z => negb (Z.eqb z 0)
  | JSBool b => b
  | JSEmptyArray | JSEmptyObject | JSInherited _ => true
  end.

(** [lookup || fallback] *)
Definition js_or (lookup : option JSValue) (fallback : JSValue) : JSValue :=
  match lookup with
  | Some v => if truthy v then v else fallback
  | None => fallback
  end.

(** String conversion as [Array.prototype.join] and template literals apply
    it.  Integers print in decimal; an inherited function prints under its
    own name, which for the member [constructor] is [Object]. *)
Definition ToString (v : JSValue) : string :=
  match v with
  | JSString s => s
  | JSNumber z => NilZero.string_of_int (Z.to_int z)
  | JSBool true => "true"
  | JSBool false => "false"
  | JSEmptyArray => EmptyString
  | JSEmptyObject => "[object Object]"
  | JSInherited "__proto__" => "[object Object]"
  | JSInherited "constructor" => "function Object() { [native code] }"
  | JSInherited key => String.append "function " (String.append key "() { [native code] }")
  end.

(** ** Data model *)

Module Node.
Record t : Type := mk {
  addr : nat;
  id : Z;
  type : string;
  x : Q;
  y : Q;
  width : Q;
  height : Q;
  title : JSValue;
  color : JSValue;
  properties : list (string * JSValue)
}.
End Node.

Module Connection.
Record t : Type := mk {
  from : Z;
  to : Z;
  color : option string;
  dashed : bool
}.
End Connection.

Record Editor : Type := mkEditor {
  nodes : list Node.t;
  connections : list Connection.t;
  selectedNode : option nat;
  dragging : bool;
  offsetX : Q;
  offsetY : Q;
  scale : Q;
  panX : Q;
  panY : Q;
  isPanning : bool;
  startPanX : Q;
  startPanY : Q;
  currentScenario : option (JSValue * string);
  lastPinchDistance : option Q;
  next_addr : nat
}.
(** [selectedNode] holds the address of the selected node object;
    [lastPinchDistance] is [None] while the field is [undefined];
    [next_addr] is the first address no object has been allocated at. *)

(** State right after the constructor's field initialisers. *)
Definition constructor : Editor :=
  {| nodes := []; connections := []; selectedNode := None; dragging := false;
     offsetX := 0; offsetY := 0; scale := 1; panX := 0; panY := 0;
     isPanning := false; startPanX := 0; startPanY := 0;
     currentScenario := None; lastPinchDistance := None; next_addr := 0 |}.

Definition with_graph (s : Editor) (ns : list Node.t) (cs : list Connection.t)
  : Editor :=
  {| nodes := ns; connections := cs; selectedNode := selectedNode s;
     dragging := dragging s; offsetX := offsetX s; offsetY := offsetY s;
     scale := scale s; panX := panX s; panY := panY s;
     isPanning := isPanning s; startPanX := startPanX s;
     startPanY := startPanY s; currentScenario := currentScenario s;
     lastPinchDistance := lastPinchDistance s; next_addr := next_addr s |}.

Definition with_next_addr (s : Editor) (a : nat) : Editor :=
  {| nodes := nodes s; connections := connections s;
     selectedNode := selectedNode s;
     dragging := dragging s; offsetX := offsetX s; offsetY := offsetY s;
     scale := scale s; panX := panX s; panY := panY s;
     isPanning := isPanning s; startPanX := startPanX s;
     startPanY := startPanY s; currentScenario := currentScenario s;
     lastPinchDistance := lastPinchDistance s; next_addr := a |}.

Definition with_viewport (s : Editor) (sc px py : Q) : Editor :=
  {| nodes := nodes s; connections := connections s;
     selectedNode := selectedNode s;
     dragging := dragging s; offsetX := offsetX s; offsetY := offsetY s;
     scale := sc; panX := px; panY := py;
     isPanning := isPanning s; startPanX := startPanX s;
     startPanY := startPanY s; currentScenario := currentScenario s;
     lastPinchDistance := lastPinchDistance s; next_addr := next_addr s |}.

Definition with_lastPinchDistance (s : Editor) (d : Q) : Editor :=
  {| nodes := nodes s; connections := connections s;
     selectedNode := selectedNode s;
     dragging := dragging s; offsetX := offsetX s; offsetY := offsetY s;
     scale := scale s; panX := panX s; panY := panY s;
     isPanning := isPanning s; startPanX := startPanX s;
     startPanY := startPanY s; currentScenario := currentScenario s;
     lastPinchDistance := Some d; next_addr := next_addr s |}.

(** ** Node construction *)

Definition titles : list (string * JSValue) :=
  [ ("state", JSString "Состояние");
    ("action", JSString "Действие");
    ("condition", JSString "Условие");
    ("event", JSString "Событие");
    ("start", JSString "Старт");
    ("end", JSString "Конец") ].

Definition getNodeTitle (type : string) : JSValue :=
  js_or (get_property titles type) (JSString "Узел").

Definition colors : list (string * JSValue) :=
  [ ("state", JSString "#3498db");
    ("action", JSString "#2ecc71");
    ("condition", JSString "#f39c12");
    ("event", JSString "#9b59b6");
    ("start", JSString "#27ae60");
    ("end", JSString "#e74c3c") ].

Definition getNodeColor (type : string) : JSValue :=
  js_or (get_property colors type) (JSString "#95a5a6").

(** [now] is the value [Date.now()] returns inside the call. *)
Definition getDefaultProperties (now : Z) (type : string)
  : list (string * JSValue) :=
  let baseProps :=
    [ ("id", JSNumber now);
      ("name", getNodeTitle type);
      ("description", JSString EmptyString);
      ("enabled", JSBool true) ] in
  if String.eqb type "state" then
    baseProps ++
    [ ("transitions", JSEmptyArray);
      ("onEnter", JSString EmptyString);
      ("onExit", JSString EmptyString);
      ("onUpdate", JSString EmptyString);
      ("isInitial", JSBool (String.eqb type "start")) ]
  else if String.eqb type "action" then
    baseProps ++
    [ ("actionType", JSString "custom");
      ("parameters", JSEmptyObject);
      ("delay", JSNumber 0);
      ("repeat", JSNumber 1) ]
  else if String.eqb type "condition" then
    baseProps ++
    [ ("conditionType", JSString "boolean");
      ("expression", JSString EmptyString);
      ("trueState", JSString EmptyString);
      ("falseState", JSString EmptyString) ]
  else if String.eqb type "event" then
    baseProps ++
    [ ("eventType", JSString "custom");
      ("trigger", JSString EmptyString);
      ("targetState", JSString EmptyString);
      ("data", JSEmptyObject) ]
  else baseProps.

(** [addNode(type, x, y)].  The object literal reads the clock for [id]
    ([now]) and, inside [getDefaultProperties], once more ([now']); the new
    object is allocated at the first free address and pushed onto [nodes]. *)
Definition new_node (a : nat) (now now' : Z) (type : string) (x y : Q)
  : Node.t :=
  {| Node.addr := a;
     Node.id := now;
     Node.type := type;
     Node.x := x;
     Node.y := y;
     Node.width := 120;
     Node.height := 80;
     Node.title := getNodeTitle type;
     Node.color := getNodeColor type;
     Node.properties := getDefaultProperties now' type |}.

Definition addNode (s : Editor) (now now' : Z) (type : string) (x y : Q)
  : Editor :=
  let node := new_node (next_addr s) now now' type x y in
  with_next_addr (with_graph s (nodes s ++ [node]) (connections s))
                 (S (next_addr s)).

(** ** Hit testing and deletion *)

Definition contains_point (node : Node.t) (x y : Q) : bool :=
  Qle_bool (Node.x node) x && Qle_bool x (Node.x node + Node.width node) &&
  Qle_bool (Node.y node) y && Qle_bool y (Node.y node + Node.height node).

(** The loop [for (i = length - 1; i >= 0; i--)]: [getNodeAt_from ns i]
    examines the indices [i - 1], [i - 2], ..., [0] in that order. *)
Fixpoint getNodeAt_from (ns : list Node.t) (i : nat) (x y : Q)
  : option Node.t :=
  match i with
  | O => None
  | S j =>
      match nth_error ns j with
      | Some node =>
          if contains_point node x y then Some node
          else getNodeAt_from ns j x y
      | None => getNodeAt_from ns j x y
      end
  end.

Definition getNodeAt (s : Editor) (x y : Q) : option Node.t :=
  getNodeAt_from (nodes s) (List.length (nodes s)) x y.

(** [Array.prototype.indexOf] on the node array: position of the first
    element that is the same object as [node]; [None] stands for [-1]. *)
Fixpoint indexOf (ns : list Node.t) (node : Node.t) : option nat :=
  match ns with
  | [] => None
  | n :: rest =>
      if Nat.eqb (Node.addr n) (Node.addr node) then Some O
      else option_map S (indexOf rest node)
  end.

(** [array.splice(index, 1)] *)
Definition splice1 {A : Type} (l : list A) (index : nat) : list A :=
  firstn index l ++ skipn (S index) l.

Definition removeNode (s : Editor) (node : Node.t) : Editor :=
  match indexOf (nodes s) node with
  | Some index =>
      with_graph s
        (splice1 (nodes s) index)
        (filter (fun conn =>
                   negb (Z.eqb (Connection.from conn) (Node.id node)) &&
                   negb (Z.eqb (Connection.to conn) (Node.id node)))
                (connections s))
  | None => s
  end.


(** ** Viewport *)

Definition Math_max (a b : Q) : Q := Qmax a b.
Definition Math_min (a b : Q) : Q := Qmin a b.
Definition Qltb (a b : Q) : bool := negb (Qle_bool b a).

(** Screen to graph space, as every pointer handler computes it:
    [(clientX - rect.left - panX) / scale] with [sx = clientX - rect.left]. *)
Definition toGraphX (s : Editor) (sx : Q) : Q := (sx - panX s) / scale s.
Definition toGraphY (s : Editor) (sy : Q) : Q := (sy - panY s) / scale s.

Module DOMRect.
Record t : Type := mk { left : Q; top : Q }.
End DOMRect.

Module WheelEvent.
Record t : Type := mk { deltaY : Q; clientX : Q; clientY : Q }.
End WheelEvent.

Module Touch.
Record t : Type := mk { clientX : Q; clientY : Q }.
End Touch.

(** [rect] is [canvas.getBoundingClientRect()]. *)
Definition onWheel (s : Editor) (rect : DOMRect.t) (e : WheelEvent.t)
  : Editor :=
  let mouseX := WheelEvent.clientX e - DOMRect.left rect in
  let mouseY := WheelEvent.clientY e - DOMRect.top rect in
  let zoomFactor := 0.1 in
  let oldScale := scale s in
  let scale1 :=
    if Qltb (WheelEvent.deltaY e) 0
    then oldScale * (1 + zoomFactor)
    else oldScale / (1 + zoomFactor) in
  let scale2 := Math_max 0.1 (Math_min 5 scale1) in
  let scaleChange := scale2 / oldScale in
  with_viewport s scale2
    (mouseX - (mouseX - panX s) * scaleChange)
    (mouseY - (mouseY - panY s) * scaleChange).

Definition zoomIn (s : Editor) : Editor :=
  with_viewport s (Math_min 5 (scale s * 1.1)) (panX s) (panY s).

Definition zoomOut (s : Editor) : Editor :=
  with_viewport s (Math_max 0.1 (scale s / 1.1)) (panX s) (panY s).

(** [if (this.lastPinchDistance)]: [undefined] and [0] are falsy. *)
Definition pinch_started (s : Editor) : option Q :=
  match lastPinchDistance s with
  | Some d => if Qeq_bool d 0 then None else Some d
  | None => None
  end.

(** The inputs that change the zoom level. *)
Inductive ZoomInput : Type :=
| Wheel (rect : DOMRect.t) (e : WheelEvent.t)
| ZoomInButton
| ZoomOutButton
| Pinch (touches : list Touch.t).

Section PinchZoom.

(** [Math.hypot], whose results are irrational in general, is supplied by
    the engine. *)
Variable hypot : Q -> Q -> Q.

Definition handlePinchZoom (s : Editor) (touches : list Touch.t) : Editor :=
  match touches with
  | [touch1; touch2] =>
      let currentDistance :=
        hypot (Touch.clientX touch1 - Touch.clientX touch2)
              (Touch.clientY touch1 - Touch.clientY touch2) in
      let s1 :=
        match pinch_started s with
        | Some last =>
            let delta := currentDistance - last in
            let zoomFactor := delta * 0.01 in
            with_viewport s
              (Math_max 0.1 (Math_min 5 (scale s * (1 + zoomFactor))))
              (panX s) (panY s)
        | None => s
        end in
      with_lastPinchDistance s1 currentDistance
  | _ => s
  end.

Definition zoom_step (s : Editor) (i : ZoomInput) : Editor :=
  match i with
  | Wheel rect e => onWheel s rect e
  | ZoomInButton => zoomIn s
  | ZoomOutButton => zoomOut s
  | Pinch touches => handlePinchZoom s touches
  end.

(** The editor states after each input of a sequence, in order. *)
Fixpoint zoom_trace (s : Editor) (inputs : list ZoomInput) : list Editor :=
  match inputs with
  | [] => []
  | i :: rest => zoom_step s i :: zoom_trace (zoom_step s i) rest
  end.

End PinchZoom.

Module Canvas.
Record t : Type := mk { width : Q; height : Q }.
End Canvas.

(** [centerView()].  The bounding box starts at [Infinity]/[-Infinity];
    since [Math.min(Infinity, v) = v] and [Math.max(-Infinity, v) = v], the
    folds below start from the first node. *)
Definition centerView (s : Editor) (canvas : Canvas.t) : Editor :=
  match nodes s with
  | [] =>
      with_viewport s (scale s) (Canvas.width canvas / 2)
                    (Canvas.height canvas / 2)
  | n0 :: rest =>
      let minX := fold_left (fun m n => Math_min m (Node.x n)) rest (Node.x n0) in
      let minY := fold_left (fun m n => Math_min m (Node.y n)) rest (Node.y n0) in
      let maxX :=
        fold_left (fun m n => Math_max m (Node.x n + Node.width n)) rest
                  (Node.x n0 + Node.width n0) in
      let maxY :=
        fold_left (fun m n => Math_max m (Node.y n + Node.height n)) rest
                  (Node.y n0 + Node.height n0) in
      let centerX := (minX + maxX) / 2 in
      let centerY := (minY + maxY) / 2 in
      with_viewport s (scale s)
        (Canvas.width canvas / 2 - centerX * scale s)
        (Canvas.height canvas / 2 - centerY * scale s)
  end.

(** ** Operations that notify the user *)

(** A call [VRARPlatform.showNotification(message, type)]. *)
Definition Notification : Type := (string * string)%type.

(** Node literal of the demo scenario, allocated at address [a]. *)
Definition demo_node (a : nat) (id : Z) (type : string) (x y : Q)
  (title color description : string) : Node.t :=
  {| Node.addr := a; Node.id := id; Node.type := type;
     Node.x := x; Node.y := y; Node.width := 120; Node.height := 80;
     Node.title := JSString title; Node.color := JSString color;
     Node.properties :=
       [ ("name", JSString title); ("description", JSString description) ] |}.

Definition demo_connection (from to : Z) (color : string) : Connection.t :=
  {| Connection.from := from; Connection.to := to;
     Connection.color := Some color; Connection.dashed := false |}.

(** [loadScenario(id)], once its timer has fired. *)
Definition loadScenario (s : Editor) (id : JSValue) (canvas : Canvas.t)
  : Editor * list Notification :=
  let a := next_addr s in
  let ns :=
    [ demo_node a 1 "start" 100 100 "Начало" "#27ae60"
        "Начальная точка сценария";
      demo_node (a + 1) 2 "state" 300 100 "Загрузка" "#3498db"
        "Загрузка ресурсов";
      demo_node (a + 2) 3 "action" 500 100 "Показать UI" "#2ecc71"
        "Отображение интерфейса";
      demo_node (a + 3) 4 "condition" 300 250 "Проверка" "#f39c12"
        "Проверка условий";
      demo_node (a + 4) 5 "end" 500 250 "Конец" "#e74c3c"
        "Конечная точка сценария" ] in
  let cs :=
    [ demo_connection 1 2 "#3498db";
      demo_connection 2 3 "#2ecc71";
      demo_connection 3 4 "#f39c12";
      demo_connection 4 5 "#e74c3c" ] in
  let s1 := with_next_addr (with_graph s ns cs) (a + 5) in
  let s2 :=
    {| nodes := nodes s1; connections := connections s1;
       selectedNode := selectedNode s1;
       dragging := dragging s1; offsetX := offsetX s1; offsetY := offsetY s1;
       scale := scale s1; panX := panX s1; panY := panY s1;
       isPanning := isPanning s1; startPanX := startPanX s1;
       startPanY := startPanY s1;
       currentScenario := Some (id, "Демо сценарий");
       lastPinchDistance := lastPinchDistance s1;
       next_addr := next_addr s1 |} in
  (centerView s2 canvas,
   [ ("Загрузка сценария...", "info"); ("Сценарий загружен", "success") ]).

(** [clearWorkspace()]; [confirmed] is the answer of the [confirm] dialog. *)
Definition clearWorkspace (s : Editor) (confirmed : bool)
  : Editor * list Notification :=
  if confirmed then
    ({| nodes := []; connections := []; selectedNode := None;
        dragging := dragging s; offsetX := offsetX s; offsetY := offsetY s;
        scale := scale s; panX := panX s; panY := panY s;
        isPanning := isPanning s; startPanX := startPanX s;
        startPanY := startPanY s; currentScenario := currentScenario s;
        lastPinchDistance := lastPinchDistance s; next_addr := next_addr s |},
     [ ("Рабочая область очищена", "success") ])
  else (s, []).

(** [saveScenario()]: the guard, then the two notifications around the
    timer that stands in for the request. *)
Definition saveScenario (s : Editor) : Editor * list Notification :=
  if Nat.eqb (List.length (nodes s)) 0 then
    (s, [ ("Нет данных для сохранения", "warning") ])
  else
    (s, [ ("Сохранение сценария...", "info");
          ("Сценарий сохранен успешно", "success") ]).

Definition runScenario (s : Editor) : Editor * list Notification :=
  if Nat.eqb (List.length (nodes s)) 0 then
    (s, [ ("Нет сценария для запуска", "warning") ])
  else
    (s, [ ("Запуск сценария...", "info");
          ("Сценарий выполнен успешно", "success") ]).

(** A [Set] of ids: insertion keeps the first occurrence only. *)
Definition Set_has (set : list Z) (v : Z) : bool := existsb (Z.eqb v) set.
Definition Set_add (set : list Z) (v : Z) : list Z :=
  if Set_has set v then set else set ++ [v].

Definition connectedNodeIds (s : Editor) : list Z :=
  fold_left
    (fun set conn =>
       Set_add (Set_add set (Connection.from conn)) (Connection.to conn))
    (connections s) [].

Definition isolatedNodes (s : Editor) : list Node.t :=
  filter
    (fun n =>
       negb (Set_has (connectedNodeIds s) (Node.id n)) &&
       negb (String.eqb (Node.type n) "start") &&
       negb (String.eqb (Node.type n) "end"))
    (nodes s).

Definition missing_start_issue : string := "Отсутствует начальный узел".
Definition missing_end_issue : string := "Отсутствует конечный узел".
Definition isolated_issue_prefix : string := "Найдены изолированные узлы: ".

(** [nodes.some(n => n.type === kind)] *)
Definition has_type (kind : string) (ns : list Node.t) : bool :=
  existsb (fun n => String.eqb (Node.type n) kind) ns.

(** The [issues] array as [validateScenario] leaves it after its three
    checks. *)
Definition validation_issues (s : Editor) : list string :=
  let issues := [] in
  let hasStart := has_type "start" (nodes s) in
  let issues := if negb hasStart then issues ++ [missing_start_issue] else issues in
  let hasEnd := has_type "end" (nodes s) in
  let issues := if negb hasEnd then issues ++ [missing_end_issue] else issues in
  let isolated := isolatedNodes s in
  if Nat.ltb 0 (List.length isolated) then
    issues ++
    [ String.append isolated_issue_prefix
        (String.concat ", " (map (fun n => ToString (Node.title n)) isolated)) ]
  else issues.

Definition validateScenario (s : Editor) : Editor * list Notification :=
  if Nat.eqb (List.length (nodes s)) 0 then
    (s, [ ("Нет сценария для проверки", "warning") ])
  else
    let issues := validation_issues s in
    (s, [ ("Проверка сценария...", "info");
          if Nat.eqb (List.length issues) 0
          then ("Сценарий прошел проверку успешно", "success")
          else (String.append "Найдены проблемы: " (String.concat "; " issues),
                "warning") ]).

(** ** Pointer, touch and keyboard handlers *)

Module MouseEvent.
Record t : Type := mk {
  clientX : Q;
  clientY : Q;
  button : Z;
  ctrlKey : bool
}.
End MouseEvent.

Module KeyboardEvent.
Record t : Type := mk { key : string; ctrlKey : bool }.
End KeyboardEvent.

Definition with_selection (s : Editor) (selected : option nat) (drag : bool)
  (ox oy : Q) : Editor :=
  {| nodes := nodes s; connections := connections s;
     selectedNode := selected;
     dragging := drag; offsetX := ox; offsetY := oy;
     scale := scale s; panX := panX s; panY := panY s;
     isPanning := isPanning s; startPanX := startPanX s;
     startPanY := startPanY s; currentScenario := currentScenario s;
     lastPinchDistance := lastPinchDistance s; next_addr := next_addr s |}.

Definition with_panning (s : Editor) (panning : bool) (sx sy : Q) : Editor :=
  {| nodes := nodes s; connections := connections s;
     selectedNode := selectedNode s;
     dragging := dragging s; offsetX := offsetX s; offsetY := offsetY s;
     scale := scale s; panX := panX s; panY := panY s;
     isPanning := panning; startPanX := sx;
     startPanY := sy; currentScenario := currentScenario s;
     lastPinchDistance := lastPinchDistance s; next_addr := next_addr s |}.

(** The assignments [node.x = x; node.y = y] on one node object. *)
Definition set_position (n : Node.t) (x y : Q) : Node.t :=
  {| Node.addr := Node.addr n; Node.id := Node.id n; Node.type := Node.type n;
     Node.x := x; Node.y := y;
     Node.width := Node.width n; Node.height := Node.height n;
     Node.title := Node.title n; Node.color := Node.color n;
     Node.properties := Node.properties n |}.

(** The node array after the object at address [a] has been assigned a new
    position: the array holds references, so the element that is this
    object shows the new fields; an object that is not in the array leaves
    the array as it is. *)
Definition move_node (ns : list Node.t) (a : nat) (x y : Q) : list Node.t :=
  map (fun n => if Nat.eqb (Node.addr n) a then set_position n x y else n) ns.

(** The array element that is the object at address [a], if any. *)
Definition node_at_address (ns : list Node.t) (a : nat) : option Node.t :=
  find (fun n => Nat.eqb (Node.addr n) a) ns.

Definition onMouseDown (s : Editor) (rect : DOMRect.t) (e : MouseEvent.t)
  : Editor :=
  let x := (MouseEvent.clientX e - DOMRect.left rect - panX s) / scale s in
  let y := (MouseEvent.clientY e - DOMRect.top rect - panY s) / scale s in
  match getNodeAt s x y with
  | Some node =>
      with_selection s (Some (Node.addr node)) true
                     (x - Node.x node) (y - Node.y node)
  | None =>
      let s1 := with_selection s None (dragging s) (offsetX s) (offsetY s) in
      if Z.eqb (MouseEvent.button e) 1 || MouseEvent.ctrlKey e
      then with_panning s1 true (MouseEvent.clientX e) (MouseEvent.clientY e)
      else s1
  end.

Definition onMouseMove (s : Editor) (rect : DOMRect.t) (e : MouseEvent.t)
  : Editor :=
  let x := (MouseEvent.clientX e - DOMRect.left rect - panX s) / scale s in
  let y := (MouseEvent.clientY e - DOMRect.top rect - panY s) / scale s in
  match dragging s, selectedNode s with
  | true, Some a =>
      with_graph s (move_node (nodes s) a (x - offsetX s) (y - offsetY s))
                 (connections s)
  | _, _ =>
      if isPanning s then
        let dx := MouseEvent.clientX e - startPanX s in
        let dy := MouseEvent.clientY e - startPanY s in
        with_panning
          (with_viewport s (scale s) (panX s + dx) (panY s + dy))
          (isPanning s) (MouseEvent.clientX e) (MouseEvent.clientY e)
      else s
  end.

Definition onMouseUp (s : Editor) : Editor :=
  with_panning (with_selection s None false (offsetX s) (offsetY s))
               false (startPanX s) (startPanY s).

(** [new MouseEvent(type, { clientX, clientY })]: the button is 0 and no
    modifier key is set. *)
Definition touch_as_mouse (t : Touch.t) : MouseEvent.t :=
  {| MouseEvent.clientX := Touch.clientX t;
     MouseEvent.clientY := Touch.clientY t;
     MouseEvent.button := 0;
     MouseEvent.ctrlKey := false |}.

Definition onTouchStart (s : Editor) (rect : DOMRect.t)
  (touches : list Touch.t) : Editor :=
  match touches with
  | [t] => onMouseDown s rect (touch_as_mouse t)
  | _ => s
  end.

Definition onTouchMove (hypot : Q -> Q -> Q) (s : Editor) (rect : DOMRect.t)
  (touches : list Touch.t) : Editor :=
  match touches with
  | [t] => onMouseMove s rect (touch_as_mouse t)
  | [_; _] => handlePinchZoom hypot s touches
  | _ => s
  end.

Definition onTouchEnd (s : Editor) : Editor := onMouseUp s.

(** [removeNode(obj)] for the node object at address [a]: when the object
    is an array element, it is that element; otherwise [indexOf] finds
    nothing. *)
Definition removeNode_at (s : Editor) (a : nat) : Editor :=
  match node_at_address (nodes s) a with
  | Some node => removeNode s node
  | None => s
  end.

Definition onKeyDown (s : Editor) (e : KeyboardEvent.t)
  : Editor * list Notification :=
  let key := KeyboardEvent.key e in
  if String.eqb key "Delete" || String.eqb key "Backspace" then
    match selectedNode s with
    | Some a =>
        let s1 := removeNode_at s a in
        (with_selection s1 None (dragging s1) (offsetX s1) (offsetY s1), [])
    | None => (s, [])
    end
  else if String.eqb key "Escape" then
    (with_selection s None (dragging s) (offsetX s) (offsetY s), [])
  else if KeyboardEvent.ctrlKey e && String.eqb key "s" then
    saveScenario s
  else (s, []).

(** The [drop] listener of the canvas; [type] is the dragged text. *)
Definition onDrop (s : Editor) (rect : DOMRect.t) (clientX clientY : Q)
  (type : string) (now now' : Z) : Editor :=
  if String.eqb type EmptyString then s
  else
    let x := (clientX - DOMRect.left rect - panX s) / scale s in
    let y := (clientY - DOMRect.top rect - panY s) / scale s in
    addNode s now now' type x y.

(** The events the page delivers to the editor.  [PanelDelete a] is a click
    on the delete button of the properties panel that was rendered for the
    node object at address [a]; [ScenarioLoaded] is the completion of
    [loadScenario]. *)
Inductive UIEvent : Type :=
| MouseDown (rect : DOMRect.t) (e : MouseEvent.t)
| MouseMove (rect : DOMRect.t) (e : MouseEvent.t)
| MouseUp
| WheelTurn (rect : DOMRect.t) (e : WheelEvent.t)
| TouchStart (rect : DOMRect.t) (touches : list Touch.t)
| TouchMove (rect : DOMRect.t) (touches : list Touch.t)
| TouchEnd
| KeyDown (e : KeyboardEvent.t)
| Drop (rect : DOMRect.t) (clientX clientY : Q) (type : string) (now now' : Z)
| ClickZoomIn
| ClickZoomOut
| ClickCenterView (canvas : Canvas.t)
| ClickClear (confirmed : bool)
| ClickSave
| ClickRun
| ClickValidate
| ScenarioLoaded (id : JSValue) (canvas : Canvas.t)
| PanelDelete (a : nat).

Definition dispatch (hypot : Q -> Q -> Q) (s : Editor) (ev : UIEvent)
  : Editor * list Notification :=
  match ev with
  | MouseDown rect e => (onMouseDown s rect e, [])
  | MouseMove rect e => (onMouseMove s rect e, [])
  | MouseUp => (onMouseUp s, [])
  | WheelTurn rect e => (onWheel s rect e, [])
  | TouchStart rect touches => (onTouchStart s rect touches, [])
  | TouchMove rect touches => (onTouchMove hypot s rect touches, [])
  | TouchEnd => (onTouchEnd s, [])
  | KeyDown e => onKeyDown s e
  | Drop rect cx cy type now now' => (onDrop s rect cx cy type now now', [])
  | ClickZoomIn => (zoomIn s, [])
  | ClickZoomOut => (zoomOut s, [])
  | ClickCenterView canvas => (centerView s canvas, [])
  | ClickClear confirmed => clearWorkspace s confirmed
  | ClickSave => saveScenario s
  | ClickRun => runScenario s
  | ClickValidate => validateScenario s
  | ScenarioLoaded id canvas => loadScenario s id canvas
  | PanelDelete a => (removeNode_at s a, [])
  end.

(** The editor after a sequence of events. *)
Definition dispatch_all (hypot : Q -> Q -> Q) (s : Editor)
  (events : list UIEvent) : Editor :=
  fold_left (fun s ev => fst (dispatch hypot s ev)) events s.

(** * Vocabulary of the properties *)

(** ** Well-formed editors *)

(** Every element of [nodes] is a distinct object, allocated below
    [next_addr]. *)
Definition objects_distinct (s : Editor) : Prop :=
  NoDup (map Node.addr (nodes s)).

Definition allocated (s : Editor) : Prop :=
  Forall (fun n => (Node.addr n < next_addr s)%nat) (nodes s).

Definition well_formed (s : Editor) : Prop :=
  objects_distinct s /\ allocated s.

(** The calls that edit the editor, and a run of them. *)
Inductive Action : Type :=
| AddNode (now now' : Z) (type : string) (x y : Q)
| RemoveNode (node : Node.t)
| Zoom (i : ZoomInput)
| ClearWorkspace (confirmed : bool)
| LoadScenario (id : JSValue) (canvas : Canvas.t).

Definition perform (hypot : Q -> Q -> Q) (s : Editor) (a : Action) : Editor :=
  match a with
  | AddNode now now' type x y => addNode s now now' type x y
  | RemoveNode node => removeNode s node
  | Zoom i => zoom_step hypot s i
  | ClearWorkspace confirmed => fst (clearWorkspace s confirmed)
  | LoadScenario id canvas => fst (loadScenario s id canvas)
  end.

Definition run (hypot : Q -> Q -> Q) (s : Editor) (actions : list Action)
  : Editor :=
  fold_left (perform hypot) actions s.

(** ** Sample editors and inputs *)

(** The scenario the editor holds after [loadScenario] on a fresh editor
    with an 800 x 600 canvas. *)
Definition demo_editor : Editor :=
  fst (loadScenario constructor (JSNumber 1)
         {| Canvas.width := 800; Canvas.height := 600 |}).

Definition demo_state_node : Node.t :=
  demo_node 1 2 "state" 300 100 "Загрузка" "#3498db" "Загрузка ресурсов".

(** ** Predicates *)

(** The closed axis-aligned box of a node. *)
Definition in_box (node : Node.t) (x y : Q) : Prop :=
  (Node.x node <= x /\ x <= Node.x node + Node.width node /\
   Node.y node <= y /\ y <= Node.y node + Node.height node)%Q.

Module AddCall.
(** One call [addNode(type, x, y)] together with the two clock values it
    reads. *)
Record t : Type := mk {
  now : Z;
  now' : Z;
  type : string;
  x : Q;
  y : Q
}.
End AddCall.

Definition addNodes (s : Editor) (calls : list AddCall.t) : Editor :=
  fold_left
    (fun s c =>
       addNode s (AddCall.now c) (AddCall.now' c) (AddCall.type c)
               (AddCall.x c) (AddCall.y c))
    calls s.

Definition ids_unique (s : Editor) : Prop :=
  NoDup (map Node.id (nodes s)).

Definition scale_in_range (s : Editor) : Prop :=
  (0.1 <= scale s /\ scale s <= 5)%Q.

(** A distance function that equals [Math.hypot] whenever one of the two
    displacements is zero, the only inputs the examples below give it. *)
Definition hypot_on_axis (dx dy : Q) : Q := (Qabs dx + Qabs dy)%Q.

Definition touch (x y : Q) : Touch.t :=
  {| Touch.clientX := x; Touch.clientY := y |}.

Definition wheel (deltaY x y : Q) : ZoomInput :=
  Wheel {| DOMRect.left := 0; DOMRect.top := 0 |}
        {| WheelEvent.deltaY := deltaY; WheelEvent.clientX := x;
           WheelEvent.clientY := y |}.

(** All fields other than [scale] agree. *)
Definition same_except_scale (s s' : Editor) : Prop :=
  nodes s' = nodes s /\ connections s' = connections s /\
  selectedNode s' = selectedNode s /\ dragging s' = dragging s /\
  offsetX s' = offsetX s /\ offsetY s' = offsetY s /\
  panX s' = panX s /\ panY s' = panY s /\
  isPanning s' = isPanning s /\
  startPanX s' = startPanX s /\ startPanY s' = startPanY s /\
  currentScenario s' = currentScenario s /\
  lastPinchDistance s' = lastPinchDistance s /\
  next_addr s' = next_addr s.

Definition known_kinds : list string :=
  [ "state"; "action"; "condition"; "event"; "start"; "end" ].

Definition base_properties (now' : Z) (name : JSValue)
  : list (string * JSValue) :=
  [ ("id", JSNumber now'); ("name", name);
    ("description", JSString EmptyString); ("enabled", JSBool true) ].

Definition is_connected (s : Editor) (n : Node.t) : Prop :=
  exists c, In c (connections s) /\
            (Connection.from c = Node.id n \/ Connection.to c = Node.id n).

(** A node that is neither a start nor an end node and whose id is the
    [from] or [to] of no connection. *)
Definition is_isolated (s : Editor) (n : Node.t) : Prop :=
  Node.type n <> "start" /\ Node.type n <> "end" /\ ~ is_connected s n.

(** The same test as a boolean, computed from the connection array. *)
Definition is_isolatedb (s : Editor) (n : Node.t) : bool :=
  negb (existsb
          (fun c => Z.eqb (Connection.from c) (Node.id n) ||
                    Z.eqb (Connection.to c) (Node.id n))
          (connections s)) &&
  negb (String.eqb (Node.type n) "start") &&
  negb (String.eqb (Node.type n) "end").

Definition is_isolated_issue (issue : string) : bool :=
  String.prefix isolated_issue_prefix issue.

Definition isolated_issue_text (isolated : list Node.t) : string :=
  String.append isolated_issue_prefix
    (String.concat ", " (map (fun n => ToString (Node.title n)) isolated)).

Definition isolated_issue_count (s : Editor) : nat :=
  List.length (filter is_isolated_issue (validation_issues s)).

(** One start node, one end node, and two nodes connected to nothing. *)
Definition two_isolated_editor : Editor :=
  addNodes constructor
    [ AddCall.mk 1 1 "start" 0 0; AddCall.mk 2 2 "end" 600 0;
      AddCall.mk 3 3 "state" 200 0; AddCall.mk 4 4 "action" 400 0 ].

(** One start node, one end node, and a single node connected to nothing. *)
Definition one_isolated_editor : Editor :=
  addNodes constructor
    [ AddCall.mk 1 1 "start" 0 0; AddCall.mk 2 2 "end" 600 0;
      AddCall.mk 3 3 "state" 200 0 ].

(** ** Invariants of the event loop *)

(** Both ends of every connection are ids of nodes in the array. *)
Definition no_dangling_connection (s : Editor) : Prop :=
  forall c, In c (connections s) ->
    (exists n, In n (nodes s) /\ Node.id n = Connection.from c) /\
    (exists n, In n (nodes s) /\ Node.id n = Connection.to c).

Definition default_size (s : Editor) : Prop :=
  Forall (fun n => Node.width n = 120%Q /\ Node.height n = 80%Q) (nodes s).

Definition editor_invariant (s : Editor) : Prop :=
  well_formed s /\ no_dangling_connection s /\ default_size s /\
  scale_in_range s.

Definition is_touch_event (ev : UIEvent) : bool :=
  match ev with
  | TouchStart _ _ | TouchMove _ _ | TouchEnd => true
  | _ => false
  end.

Definition is_pointer_press (ev : UIEvent) : bool :=
  match ev with
  | MouseDown _ _ | TouchStart _ _ => true
  | _ => false
  end.

Definition is_delete_key (k : KeyboardEvent.t) : Prop :=
  KeyboardEvent.key k = "Delete" \/ KeyboardEvent.key k = "Backspace".



(** * Properties *)

(** ** Object identity in the node array *)

Lemma constructor_well_formed : well_formed constructor.
Proof.
  split.
  - constructor.
  - constructor.
Qed.

Lemma addNode_well_formed (s : Editor) now now' type x y :
  well_formed s -> well_formed (addNode s now now' type x y).
Proof.
  intros [Hd Ha]. unfold well_formed, objects_distinct, allocated in *.
  unfold addNode; simpl. split.
  - rewrite map_app. simpl.
    apply NoDup_app; [exact Hd| |].
    + constructor; [intros []|constructor].
    + intros a Hin [Heq|[]]. subst a.
      apply in_map_iff in Hin. destruct Hin as [m [Hm Hin]].
      rewrite Forall_forall in Ha. specialize (Ha m Hin). lia.
  - apply Forall_app. split.
    + eapply Forall_impl; [|exact Ha]. simpl. intros; lia.
    + constructor; [simpl; lia|constructor].
Qed.

Lemma indexOf_none (ns : list Node.t) (node : Node.t) :
  indexOf ns node = None <->
  (forall m, In m ns -> Node.addr m <> Node.addr node).
Proof.
  induction ns as [|n rest IH]; simpl.
  - split; [intros _ m []|reflexivity].
  - destruct (Nat.eqb (Node.addr n) (Node.addr node)) eqn:E.
    + split; [discriminate|]. intros H. apply Nat.eqb_eq in E.
      exfalso. apply (H n); auto.
    + apply Nat.eqb_neq in E.
      destruct (indexOf rest node) as [i|] eqn:Ei; simpl.
      * split; [discriminate|]. intros H.
        assert (Hn : Some i = None) by (apply IH; intros m Hm; apply H; auto).
        discriminate.
      * split; [|reflexivity]. intros _ m [<-|Hm]; [exact E|].
        apply IH; auto.
Qed.

(** When [node] is an element of an array of distinct objects, [indexOf]
    finds exactly its position and [splice] removes exactly it. *)
Lemma indexOf_splice (ns : list Node.t) (node : Node.t) :
  NoDup (map Node.addr ns) -> In node ns ->
  exists index before after,
    indexOf ns node = Some index /\
    ns = before ++ node :: after /\
    splice1 ns index = before ++ after.
Proof.
  induction ns as [|n rest IH]; simpl; intros Hnd Hin; [contradiction|].
  inversion Hnd as [|a l Hnotin Hnd']; subst.
  destruct (Nat.eqb (Node.addr n) (Node.addr node)) eqn:E.
  - apply Nat.eqb_eq in E.
    assert (n = node) as ->.
    { destruct Hin as [H|H]; [exact H|].
      exfalso. apply Hnotin. rewrite E. apply in_map. exact H. }
    exists O, [], rest. repeat split.
  - apply Nat.eqb_neq in E.
    destruct Hin as [H|H]; [subst; congruence|].
    destruct (IH Hnd' H) as (i & before & after & Hi & Hns & Hsp).
    exists (S i), (n :: before), after. rewrite Hi. simpl.
    repeat split.
    + rewrite Hns at 1. reflexivity.
    + unfold splice1 in *. simpl. f_equal. exact Hsp.
Qed.

Lemma removeNode_well_formed (s : Editor) (node : Node.t) :
  well_formed s -> well_formed (removeNode s node).
Proof.
  intros [Hd Ha]. unfold removeNode.
  destruct (indexOf (nodes s) node) as [i|]; [|split; assumption].
  unfold well_formed, objects_distinct, allocated in *. simpl.
  unfold splice1.
  rewrite <- (firstn_skipn i (nodes s)) in Hd, Ha.
  rewrite map_app in *. apply Forall_app in Ha. destruct Ha as [Ha1 Ha2].
  destruct (skipn i (nodes s)) as [|n0 tl] eqn:Esk.
  - assert (Hsk : skipn (S i) (nodes s) = []).
    { apply skipn_all2. assert (Hlen : (List.length (nodes s) <= i)%nat).
      { destruct (Nat.le_gt_cases (List.length (nodes s)) i) as [H|H]; [exact H|].
        exfalso. assert (Hl := f_equal (@List.length _) Esk).
        rewrite length_skipn in Hl. simpl in Hl. lia. }
      lia. }
    rewrite Hsk. split; [exact Hd|]. apply Forall_app; split; auto.
  - assert (Hsk : skipn (S i) (nodes s) = tl).
    { replace (S i) with (1 + i)%nat by reflexivity.
      rewrite <- skipn_skipn, Esk. reflexivity. }
    rewrite Hsk. simpl in Hd. apply NoDup_remove_1 in Hd.
    split; [exact Hd|].
    apply Forall_app; split; [exact Ha1|]. inversion Ha2; assumption.
Qed.

Lemma clearWorkspace_well_formed (s : Editor) (confirmed : bool) :
  well_formed s -> well_formed (fst (clearWorkspace s confirmed)).
Proof.
  intros H. destruct confirmed; simpl; [|exact H].
  split; constructor.
Qed.

Lemma loadScenario_well_formed (s : Editor) (id : JSValue) (canvas : Canvas.t) :
  well_formed (fst (loadScenario s id canvas)).
Proof.
  unfold well_formed, objects_distinct, allocated, loadScenario, centerView.
  simpl. split.
  - repeat constructor; simpl; intuition lia.
  - repeat constructor; simpl; lia.
Qed.

Lemma with_viewport_well_formed (s : Editor) (sc px py : Q) :
  well_formed s -> well_formed (with_viewport s sc px py).
Proof. intros H; exact H. Qed.

Lemma zoom_step_well_formed hypot (s : Editor) (i : ZoomInput) :
  well_formed s -> well_formed (zoom_step hypot s i).
Proof.
  intros H. destruct i as [rect e| | |touches]; simpl; try exact H.
  unfold handlePinchZoom.
  destruct touches as [|t1 [|t2 [|t3 ts]]]; try exact H.
  destruct (pinch_started s); exact H.
Qed.

(** Every editor that a run of calls reaches from the constructor holds
    distinct node objects. *)
Lemma run_well_formed hypot (actions : list Action) (s : Editor) :
  well_formed s -> well_formed (run hypot s actions).
Proof.
  revert s. induction actions as [|a rest IH]; intros s H; [exact H|].
  simpl. apply IH. destruct a; simpl.
  - apply addNode_well_formed, H.
  - apply removeNode_well_formed, H.
  - apply zoom_step_well_formed, H.
  - apply clearWorkspace_well_formed, H.
  - apply loadScenario_well_formed.
Qed.

Lemma run_objects_distinct hypot (actions : list Action) :
  objects_distinct (run hypot constructor actions).
Proof. apply run_well_formed, constructor_well_formed. Qed.

(** ** Deleting a node *)

(** C1.  In an editor whose node array holds distinct objects, deleting a
    node [n] of the array removes [n] and nothing else from the array, and
    keeps exactly the connections whose [from] and [to] both differ from
    [n]'s id; so no connection that remains refers to the deleted id.  Both
    updates are one application of [removeNode]. *)
Theorem removeNode_leaves_no_dangling_connection (s : Editor) (n : Node.t) :
  objects_distinct s ->
  In n (nodes s) ->
  ~ In n (nodes (removeNode s n)) /\
  (forall m, In m (nodes (removeNode s n)) <-> In m (nodes s) /\ m <> n) /\
  (forall c, In c (connections (removeNode s n)) <->
             In c (connections s) /\
             Connection.from c <> Node.id n /\ Connection.to c <> Node.id n).
Proof.
  intros Hd Hin.
  destruct (indexOf_splice (nodes s) n Hd Hin)
    as (i & before & after & Hi & Hns & Hsp).
  unfold removeNode. rewrite Hi. simpl. rewrite Hsp.
  assert (Hfresh : ~ In n (before ++ after)).
  { apply NoDup_remove_2. rewrite <- Hns.
    apply (NoDup_map_inv Node.addr). exact Hd. }
  split; [exact Hfresh|]. split.
  - intros m. rewrite Hns. rewrite !in_app_iff. simpl.
    rewrite in_app_iff in Hfresh. split.
    + intros H. split; [tauto|]. intros ->. tauto.
    + intros [[H|[H|H]] Hne]; auto. congruence.
  - intros c. rewrite filter_In, andb_true_iff, !negb_true_iff, !Z.eqb_neq.
    tauto.
Qed.

Lemma removeNode_leaves_no_dangling_connection_witness :
  ~ In demo_state_node (nodes (removeNode demo_editor demo_state_node)) /\
  (forall c, In c (connections (removeNode demo_editor demo_state_node)) ->
             Connection.from c <> 2%Z /\ Connection.to c <> 2%Z).
Proof.
  assert (Hd : objects_distinct demo_editor).
  { apply loadScenario_well_formed. }
  assert (Hin : In demo_state_node (nodes demo_editor)).
  { simpl. right. left. reflexivity. }
  destruct (removeNode_leaves_no_dangling_connection
              demo_editor demo_state_node Hd Hin) as (H1 & _ & H3).
  split; [exact H1|].
  intros c Hc. apply H3 in Hc. exact (proj2 Hc).
Defined.

(** C8.  Deleting a node object that is not an element of the node array
    changes nothing: the editor, and with it the node list and the
    connection list, is returned as it was. *)
Theorem removeNode_absent_is_noop (s : Editor) (n : Node.t) :
  (forall m, In m (nodes s) -> Node.addr m <> Node.addr n) ->
  removeNode s n = s /\
  nodes (removeNode s n) = nodes s /\
  connections (removeNode s n) = connections s.
Proof.
  intros H. apply indexOf_none in H.
  unfold removeNode. rewrite H. repeat split.
Qed.

Lemma removeNode_absent_is_noop_witness :
  removeNode demo_editor (demo_node 7 2 "state" 300 100 "x" "y" "z")
  = demo_editor.
Proof.
  apply (removeNode_absent_is_noop demo_editor).
  simpl. intros m [H|[H|[H|[H|[H|[]]]]]]; subst m; simpl; lia.
Defined.

(** ** Hit testing *)

Lemma contains_point_in_box (node : Node.t) (x y : Q) :
  contains_point node x y = true <-> in_box node x y.
Proof.
  unfold contains_point, in_box.
  rewrite !andb_true_iff, !Qle_bool_iff. tauto.
Qed.

Lemma contains_point_not_in_box (node : Node.t) (x y : Q) :
  contains_point node x y = false <-> ~ in_box node x y.
Proof.
  rewrite <- contains_point_in_box.
  destruct (contains_point node x y); split; congruence.
Qed.

Lemma getNodeAt_from_app (ns after : list Node.t) (i : nat) (x y : Q) :
  (i <= List.length ns)%nat ->
  getNodeAt_from (ns ++ after) i x y = getNodeAt_from ns i x y.
Proof.
  induction i as [|j IH]; intros Hle; simpl; [reflexivity|].
  rewrite nth_error_app1 by lia.
  rewrite IH by lia. reflexivity.
Qed.

(** Scanning an array that ends in [last] tests [last] first. *)
Lemma getNodeAt_from_snoc (ns : list Node.t) (last : Node.t) (x y : Q) :
  getNodeAt_from (ns ++ [last]) (List.length (ns ++ [last])) x y =
  if contains_point last x y then Some last
  else getNodeAt_from ns (List.length ns) x y.
Proof.
  rewrite length_app. simpl. rewrite Nat.add_1_r. simpl.
  rewrite nth_error_app2 by lia. rewrite Nat.sub_diag. simpl.
  rewrite getNodeAt_from_app by lia. reflexivity.
Qed.

Lemma getNodeAt_from_none (ns : list Node.t) (x y : Q) :
  getNodeAt_from ns (List.length ns) x y = None <->
  Forall (fun m => ~ in_box m x y) ns.
Proof.
  induction ns as [|last ns IH] using rev_ind.
  - simpl. split; [constructor|reflexivity].
  - rewrite getNodeAt_from_snoc, Forall_app.
    destruct (contains_point last x y) eqn:E.
    + split; [discriminate|]. intros [_ H]. inversion H as [|? ? Hn _]; subst.
      apply contains_point_in_box in E. contradiction.
    + rewrite IH. apply contains_point_not_in_box in E.
      split; [intros H; split; [exact H|constructor; [exact E|constructor]]|].
      tauto.
Qed.

Lemma getNodeAt_from_some (ns : list Node.t) (x y : Q) (n : Node.t) :
  getNodeAt_from ns (List.length ns) x y = Some n <->
  exists before after,
    ns = before ++ n :: after /\ in_box n x y /\
    Forall (fun m => ~ in_box m x y) after.
Proof.
  induction ns as [|last ns IH] using rev_ind.
  - simpl. split; [discriminate|].
    intros (before & after & H & _). destruct before; discriminate.
  - rewrite getNodeAt_from_snoc.
    destruct (contains_point last x y) eqn:E.
    + apply contains_point_in_box in E. split.
      * intros H. injection H as <-. exists ns, [].
        split; [reflexivity|]. split; [exact E|constructor].
      * intros (before & after & Hns & Hbox & Hafter).
        destruct after as [|a after'] using rev_ind.
        -- apply app_inj_tail in Hns. destruct Hns as [_ ->]. reflexivity.
        -- clear IHafter'.
           rewrite app_comm_cons, app_assoc in Hns.
           apply app_inj_tail in Hns. destruct Hns as [_ ->].
           apply Forall_app in Hafter. destruct Hafter as [_ Ha].
           inversion Ha; subst. contradiction.
    + apply contains_point_not_in_box in E. rewrite IH. split.
      * intros (before & after & Hns & Hbox & Hafter).
        exists before, (after ++ [last]). split; [|split; [exact Hbox|]].
        -- rewrite Hns, <- app_assoc. reflexivity.
        -- apply Forall_app. split; [exact Hafter|].
           constructor; [exact E|constructor].
      * intros (before & after & Hns & Hbox & Hafter).
        destruct after as [|a after'] using rev_ind.
        -- apply app_inj_tail in Hns. destruct Hns as [_ ->]. contradiction.
        -- clear IHafter'.
           rewrite app_comm_cons, app_assoc in Hns.
           apply app_inj_tail in Hns. destruct Hns as [-> _].
           apply Forall_app in Hafter. destruct Hafter as [Ha _].
           exists before, after'.
           split; [reflexivity|]. split; [exact Hbox|exact Ha].
Qed.

(** [addNode] puts the new node at the end of the array, so later array
    positions are more recent additions. *)
Lemma addNode_appends (s : Editor) now now' type x y :
  nodes (addNode s now now' type x y) =
  nodes s ++ [new_node (next_addr s) now now' type x y].
Proof. reflexivity. Qed.

(** C6.  For every node list and every point, [getNodeAt] returns a node
    [n] exactly when [n] is the last element of the array (the most
    recently added one) whose closed bounding box contains the point, and
    returns nothing exactly when no node's box contains the point. *)
Theorem getNodeAt_returns_topmost_hit (s : Editor) (x y : Q) :
  (forall n,
      getNodeAt s x y = Some n <->
      exists before after,
        nodes s = before ++ n :: after /\ in_box n x y /\
        Forall (fun m => ~ in_box m x y) after) /\
  (getNodeAt s x y = None <-> Forall (fun m => ~ in_box m x y) (nodes s)).
Proof.
  unfold getNodeAt. split.
  - intros n. apply getNodeAt_from_some.
  - apply getNodeAt_from_none.
Qed.

(** On two overlapping nodes the later one wins. *)
Example getNodeAt_overlap :
  let s := addNode (addNode constructor 1000 1000 "state" 0 0)
                   1001 1001 "action" 60 40 in
  option_map Node.id (getNodeAt s 100 60) = Some 1001%Z /\
  option_map Node.id (getNodeAt s 10 10) = Some 1000%Z /\
  getNodeAt s 500 500 = None.
Proof. vm_compute. repeat split. Qed.

(** ** Node ids *)

Lemma addNode_ids (s : Editor) now now' type x y :
  map Node.id (nodes (addNode s now now' type x y)) =
  map Node.id (nodes s) ++ [now].
Proof. unfold addNode; simpl. rewrite map_app. reflexivity. Qed.

(** Two calls that read the same clock value build two nodes with one id. *)
Lemma addNode_same_clock_value_repeats_id :
  let calls :=
    [ AddCall.mk 1000 1000 "state" 0 0; AddCall.mk 1000 1000 "action" 200 0 ] in
  map Node.id (nodes (addNodes constructor calls)) = [1000%Z; 1000%Z] /\
  ~ ids_unique (addNodes constructor calls).
Proof.
  split; [reflexivity|].
  unfold ids_unique. simpl. intros H.
  inversion H as [|a l Hnotin _]; subst. apply Hnotin. left. reflexivity.
Qed.

(** C2, as the code has it.  The id of a new node is the clock value read
    by the call.  When the clock values read by a sequence of [addNode]
    calls are pairwise distinct and distinct from the ids already in the
    node array, every call builds a node whose id differs from all ids
    present, and ids are unique after the sequence. *)
Theorem addNodes_ids_unique_for_fresh_clock_values
  (s : Editor) (calls : list AddCall.t) :
  NoDup (map Node.id (nodes s) ++ map AddCall.now calls) ->
  map Node.id (nodes (addNodes s calls)) =
    map Node.id (nodes s) ++ map AddCall.now calls /\
  ids_unique (addNodes s calls).
Proof.
  unfold ids_unique. revert s.
  induction calls as [|c rest IH]; intros s Hnd; simpl in *.
  - rewrite app_nil_r in *. split; [reflexivity|exact Hnd].
  - specialize (IH (addNode s (AddCall.now c) (AddCall.now' c) (AddCall.type c)
                            (AddCall.x c) (AddCall.y c))).
    rewrite addNode_ids, <- app_assoc in IH. simpl in IH.
    exact (IH Hnd).
Qed.

Lemma addNodes_ids_unique_for_fresh_clock_values_witness :
  ids_unique
    (addNodes demo_editor
       [ AddCall.mk 1000 1000 "state" 0 0; AddCall.mk 1001 1002 "toString" 200 0 ]).
Proof.
  apply (addNodes_ids_unique_for_fresh_clock_values demo_editor).
  simpl. repeat constructor; simpl; intuition lia.
Defined.

(** ** Zoom *)

Lemma clamp_in_range (v : Q) :
  (0.1 <= Math_max 0.1 (Math_min 5 v) /\ Math_max 0.1 (Math_min 5 v) <= 5)%Q.
Proof.
  unfold Math_max, Math_min.
  destruct (Q.min_spec 5 v) as [[H1 H2]|[H1 H2]];
    destruct (Q.max_spec 0.1 (Qmin 5 v)) as [[H3 H4]|[H3 H4]];
    rewrite H4; try rewrite H2; split; lra.
Qed.

Lemma onWheel_scale_in_range (s : Editor) rect e :
  scale_in_range (onWheel s rect e).
Proof. unfold scale_in_range, onWheel; simpl. apply clamp_in_range. Qed.

Lemma zoomIn_scale_in_range (s : Editor) :
  scale_in_range s -> scale_in_range (zoomIn s).
Proof.
  unfold scale_in_range, zoomIn, Math_min; simpl. intros [Hlo Hhi].
  destruct (Q.min_spec 5 (scale s * 1.1)) as [[H1 H2]|[H1 H2]];
    rewrite H2; split; lra.
Qed.

Lemma zoomOut_scale_in_range (s : Editor) :
  scale_in_range s -> scale_in_range (zoomOut s).
Proof.
  unfold scale_in_range, zoomOut, Math_max; simpl. intros [Hlo Hhi].
  assert (Hdiv : (scale s / 1.1 == scale s * (10 # 11))%Q) by (field; lra).
  destruct (Q.max_spec 0.1 (scale s / 1.1)) as [[H1 H2]|[H1 H2]];
    rewrite H2; split; lra.
Qed.

Lemma handlePinchZoom_scale_in_range hypot (s : Editor) touches :
  scale_in_range s -> scale_in_range (handlePinchZoom hypot s touches).
Proof.
  intros H. unfold handlePinchZoom.
  destruct touches as [|t1 [|t2 [|t3 ts]]]; try exact H.
  destruct (pinch_started s); [|exact H].
  unfold scale_in_range; simpl. apply clamp_in_range.
Qed.

Lemma zoom_step_scale_in_range hypot (s : Editor) (i : ZoomInput) :
  scale_in_range s -> scale_in_range (zoom_step hypot s i).
Proof.
  intros H. destruct i; simpl.
  - apply onWheel_scale_in_range.
  - apply zoomIn_scale_in_range, H.
  - apply zoomOut_scale_in_range, H.
  - apply handlePinchZoom_scale_in_range, H.
Qed.

(** C5.  Starting from a scale in [0.1, 5], after each input of any finite
    sequence of wheel notches, zoom-button presses and pinch moves, of any
    size and direction, the scale lies in [0.1, 5]. *)
Theorem scale_stays_in_range hypot (s : Editor) (inputs : list ZoomInput) :
  scale_in_range s ->
  Forall scale_in_range (zoom_trace hypot s inputs).
Proof.
  revert s. induction inputs as [|i rest IH]; intros s H; simpl.
  - constructor.
  - assert (H' := zoom_step_scale_in_range hypot s i H).
    constructor; [exact H'|]. apply IH, H'.
Qed.

Lemma scale_stays_in_range_witness :
  Forall scale_in_range
    (zoom_trace hypot_on_axis constructor
       [ ZoomInButton; wheel (-100) 400 300; Pinch [touch 0 0; touch 100 0];
         Pinch [touch 0 0; touch 5000 0]; ZoomOutButton; wheel 100 10 10 ]).
Proof.
  apply (scale_stays_in_range hypot_on_axis constructor).
  unfold scale_in_range. simpl. split; lra.
Defined.

(** Ten presses of the zoom-in button from scale 1 reach about 2.59, below
    the cap. *)
Example zoomIn_ten_times :
  (2.59 < scale (fold_left (fun s _ => zoomIn s) (repeat tt 10) constructor)
   /\ scale (fold_left (fun s _ => zoomIn s) (repeat tt 10) constructor)
      < 2.6)%Q.
Proof. split; vm_compute; reflexivity. Qed.

(** C10.  [zoomIn] sets the scale to [scale * 1.1] capped at 5, [zoomOut]
    sets it to [scale / 1.1] raised to at least 0.1, and neither changes
    any other field: pan, node list and connection list stay as they
    were. *)
Theorem zoom_buttons_change_only_scale (s : Editor) :
  (same_except_scale s (zoomIn s) /\
   scale (zoomIn s) = Math_min 5 (scale s * 1.1) /\
   (scale s * 1.1 <= 5 -> scale (zoomIn s) == scale s * 1.1)%Q /\
   (5 <= scale s * 1.1 -> scale (zoomIn s) == 5)%Q) /\
  (same_except_scale s (zoomOut s) /\
   scale (zoomOut s) = Math_max 0.1 (scale s / 1.1) /\
   (0.1 <= scale s / 1.1 -> scale (zoomOut s) == scale s / 1.1)%Q /\
   (scale s / 1.1 <= 0.1 -> scale (zoomOut s) == 0.1)%Q).
Proof.
  split.
  - split; [repeat split|]. split; [reflexivity|].
    unfold zoomIn, Math_min; simpl.
    destruct (Q.min_spec 5 (scale s * 1.1)) as [[H1 H2]|[H1 H2]];
      rewrite H2; split; intros H; lra.
  - split; [repeat split|]. split; [reflexivity|].
    unfold zoomOut, Math_max; simpl.
    destruct (Q.max_spec 0.1 (scale s / 1.1)) as [[H1 H2]|[H1 H2]];
      rewrite H2; split; intros H; lra.
Qed.

(** [onWheel] corrects the pan so that the graph point under the mouse
    stays where it is. *)
Lemma onWheel_keeps_point_under_mouse (s : Editor) rect e :
  (0 < scale s)%Q ->
  let mouseX := (WheelEvent.clientX e - DOMRect.left rect)%Q in
  let mouseY := (WheelEvent.clientY e - DOMRect.top rect)%Q in
  (toGraphX (onWheel s rect e) mouseX == toGraphX s mouseX /\
   toGraphY (onWheel s rect e) mouseY == toGraphY s mouseY)%Q.
Proof.
  intros Hpos mouseX mouseY.
  unfold toGraphX, toGraphY, onWheel; simpl.
  fold mouseX mouseY.
  set (scale1 := if Qltb (WheelEvent.deltaY e) 0
                 then (scale s * (1 + 0.1))%Q else (scale s / (1 + 0.1))%Q).
  destruct (clamp_in_range scale1) as [Hlo _].
  set (scale2 := Math_max 0.1 (Math_min 5 scale1)) in *.
  split; field; split; lra.
Qed.

(** C3 at a pinch.  On a fresh editor, a first two-finger move with the
    fingers at (100, 0) and (0, 0) records the distance 100; a second move
    with the fingers at (150, 0) and (0, 0) raises the scale from 1 to 1.5
    and leaves the pan at (0, 0): the graph point under the screen point
    (75, 0) between the fingers moves from 75 to 50.  [handlePinchZoom]
    does not recompute the pan as [onWheel] does. *)
Theorem handlePinchZoom_moves_point_between_fingers (hypot : Q -> Q -> Q) :
  hypot (100 - 0)%Q (0 - 0)%Q = 100%Q ->
  hypot (150 - 0)%Q (0 - 0)%Q = 150%Q ->
  let s := handlePinchZoom hypot constructor [touch 100 0; touch 0 0] in
  let s' := handlePinchZoom hypot s [touch 150 0; touch 0 0] in
  (scale s == 1 /\ scale s' == 1.5 /\
   panX s' = panX s /\ panY s' = panY s /\
   toGraphX s 75 == 75 /\ toGraphX s' 75 == 50 /\
   ~ toGraphX s' 75 == toGraphX s 75)%Q.
Proof.
  intros H100 H150 s s'.
  assert (Hs : s = with_lastPinchDistance constructor 100).
  { subst s. unfold handlePinchZoom, touch.
    cbn [Touch.clientX Touch.clientY]. rewrite H100. reflexivity. }
  subst s'. rewrite Hs. clear Hs s.
  unfold handlePinchZoom, touch.
  cbn [Touch.clientX Touch.clientY]. rewrite H150.
  vm_compute. repeat split; discriminate.
Qed.

Lemma handlePinchZoom_moves_point_between_fingers_witness :
  let s := handlePinchZoom hypot_on_axis constructor [touch 100 0; touch 0 0] in
  let s' := handlePinchZoom hypot_on_axis s [touch 150 0; touch 0 0] in
  (toGraphX s 75 == 75 /\ toGraphX s' 75 == 50)%Q.
Proof.
  intros s s'.
  destruct (handlePinchZoom_moves_point_between_fingers hypot_on_axis)
    as (_ & _ & _ & _ & H1 & H2 & _).
  - reflexivity.
  - reflexivity.
  - split; [exact H1|exact H2].
Defined.

(** ** Empty workspace *)

(** C7.  With an empty node array, [saveScenario], [runScenario] and
    [validateScenario] each stop at their first statement: they send one
    notification of type warning and nothing else, complete normally, and
    return the editor (nodes, connections, viewport and all other fields)
    as it was. *)
Theorem empty_workspace_only_warns (s : Editor) :
  nodes s = [] ->
  saveScenario s = (s, [ ("Нет данных для сохранения", "warning") ]) /\
  runScenario s = (s, [ ("Нет сценария для запуска", "warning") ]) /\
  validateScenario s = (s, [ ("Нет сценария для проверки", "warning") ]).
Proof.
  intros H. unfold saveScenario, runScenario, validateScenario.
  rewrite H. simpl. repeat split.
Qed.

Lemma empty_workspace_only_warns_witness :
  saveScenario constructor =
    (constructor, [ ("Нет данных для сохранения", "warning") ]) /\
  runScenario constructor =
    (constructor, [ ("Нет сценария для запуска", "warning") ]) /\
  validateScenario constructor =
    (constructor, [ ("Нет сценария для проверки", "warning") ]).
Proof.
  apply (empty_workspace_only_warns constructor). reflexivity.
Defined.

(** On a workspace with nodes the same operations go on to their work. *)
Example saveScenario_nonempty :
  snd (saveScenario demo_editor) =
  [ ("Сохранение сценария...", "info"); ("Сценарий сохранен успешно", "success") ].
Proof. reflexivity. Qed.

(** ** Kinds outside the six *)

(** The six kinds get their own title, colour and property schema. *)
Example getNodeTitle_known :
  map getNodeTitle known_kinds =
  [ JSString "Состояние"; JSString "Действие"; JSString "Условие";
    JSString "Событие"; JSString "Старт"; JSString "Конец" ].
Proof. reflexivity. Qed.

Example getDefaultProperties_keys :
  map (fun kind => map fst (getDefaultProperties 0 kind)) known_kinds =
  [ [ "id"; "name"; "description"; "enabled"; "transitions"; "onEnter";
      "onExit"; "onUpdate"; "isInitial" ];
    [ "id"; "name"; "description"; "enabled"; "actionType"; "parameters";
      "delay"; "repeat" ];
    [ "id"; "name"; "description"; "enabled"; "conditionType"; "expression";
      "trueState"; "falseState" ];
    [ "id"; "name"; "description"; "enabled"; "eventType"; "trigger";
      "targetState"; "data" ];
    [ "id"; "name"; "description"; "enabled" ];
    [ "id"; "name"; "description"; "enabled" ] ].
Proof. reflexivity. Qed.

Lemma own_property_absent (fields : list (string * JSValue)) (key : string) :
  (forall k v, In (k, v) fields -> String.eqb k key = false) ->
  own_property fields key = None.
Proof.
  induction fields as [|[k v] rest IH]; intros H; simpl; [reflexivity|].
  rewrite (H k v) by (left; reflexivity).
  apply IH. intros k' v' Hin. apply (H k' v'). right. exact Hin.
Qed.

(** A kind that is neither one of the six nor a name found on
    [Object.prototype] gets the fallback title and colour, the default size
    and the base properties only. *)
Lemma addNode_plain_unknown_kind (s : Editor) now now' type x y :
  ~ In type known_kinds ->
  existsb (String.eqb type) Object_prototype_keys = false ->
  let n := new_node (next_addr s) now now' type x y in
  nodes (addNode s now now' type x y) = nodes s ++ [n] /\
  Node.title n = JSString "Узел" /\
  Node.color n = JSString "#95a5a6" /\
  Node.width n = 120%Q /\ Node.height n = 80%Q /\
  Node.properties n = base_properties now' (JSString "Узел").
Proof.
  intros Hk Hp n. subst n. unfold known_kinds in Hk. simpl in Hk.
  assert (Hne : forall k, In k known_kinds -> String.eqb k type = false).
  { intros k Hin. apply String.eqb_neq. intros ->. apply Hk.
    unfold known_kinds in Hin. simpl in Hin. exact Hin. }
  assert (Ht : getNodeTitle type = JSString "Узел").
  { unfold getNodeTitle, get_property.
    rewrite own_property_absent, Hp; [reflexivity|].
    intros k v Hin. apply Hne. apply (in_map fst) in Hin. exact Hin. }
  assert (Hc : getNodeColor type = JSString "#95a5a6").
  { unfold getNodeColor, get_property.
    rewrite own_property_absent, Hp; [reflexivity|].
    intros k v Hin. apply Hne. apply (in_map fst) in Hin. exact Hin. }
  split; [reflexivity|]. cbn [new_node Node.title Node.color Node.width
                              Node.height Node.properties].
  rewrite Ht, Hc.
  repeat (split; [reflexivity|]).
  unfold getDefaultProperties. rewrite Ht.
  rewrite !(String.eqb_sym type).
  rewrite !Hne by (unfold known_kinds; simpl; tauto).
  reflexivity.
Qed.

Lemma addNode_plain_unknown_kind_example :
  Node.title (new_node 0 1000 1000 "portal" 10 20) = JSString "Узел".
Proof.
  apply (addNode_plain_unknown_kind constructor 1000%Z 1000%Z "portal" 10 20).
  - simpl. intuition discriminate.
  - reflexivity.
Qed.

(** C9 at the kind ["toString"].  The kind is none of the six, yet the new
    node's title and colour are not the fallbacks: both lookups find the
    member [toString] that the object literals inherit from
    [Object.prototype], and so does the [name] property.  Size and the set
    of property keys are the defaults. *)
Theorem addNode_inherited_kind_misses_fallback
  (s : Editor) (now now' : Z) (x y : Q) :
  let n := new_node (next_addr s) now now' "toString" x y in
  ~ In "toString" known_kinds /\
  nodes (addNode s now now' "toString" x y) = nodes s ++ [n] /\
  Node.title n = JSInherited "toString" /\
  Node.title n <> JSString "Узел" /\
  Node.color n = JSInherited "toString" /\
  Node.color n <> JSString "#95a5a6" /\
  Node.width n = 120%Q /\ Node.height n = 80%Q /\
  Node.properties n = base_properties now' (JSInherited "toString").
Proof.
  simpl. repeat split; try discriminate.
  unfold known_kinds. simpl. intuition discriminate.
Qed.

(** ** Validation *)

Lemma Set_has_In (set : list Z) (v : Z) : Set_has set v = true <-> In v set.
Proof.
  unfold Set_has. rewrite existsb_exists. split.
  - intros (w & Hin & Heq). apply Z.eqb_eq in Heq. subst. exact Hin.
  - intros Hin. exists v. split; [exact Hin|apply Z.eqb_refl].
Qed.

Lemma Set_add_In (set : list Z) (v w : Z) :
  In w (Set_add set v) <-> In w set \/ w = v.
Proof.
  unfold Set_add. destruct (Set_has set v) eqn:E.
  - apply Set_has_In in E. split; [tauto|]. intros [H| ->]; assumption.
  - rewrite in_app_iff. simpl. intuition.
Qed.

Lemma connected_fold_In (cs : list Connection.t) (acc : list Z) (v : Z) :
  In v (fold_left
          (fun set conn =>
             Set_add (Set_add set (Connection.from conn)) (Connection.to conn))
          cs acc) <->
  In v acc \/
  exists c, In c cs /\ (Connection.from c = v \/ Connection.to c = v).
Proof.
  revert acc. induction cs as [|c rest IH]; intros acc; simpl.
  - split; [tauto|]. intros [H|(c & [] & _)]. exact H.
  - rewrite IH, !Set_add_In. split.
    + intros [[[H|H]|H]|(c' & Hin & Hc')].
      * left; exact H.
      * right. exists c. split; [left; reflexivity|left; congruence].
      * right. exists c. split; [left; reflexivity|right; congruence].
      * right. exists c'. split; [right; exact Hin|exact Hc'].
    + intros [H|(c' & [<-|Hin] & Hc')].
      * left; left; left; exact H.
      * destruct Hc' as [Hc'|Hc']; left; [left; right|right]; congruence.
      * right. exists c'. split; assumption.
Qed.

Lemma connectedNodeIds_has (s : Editor) (n : Node.t) :
  Set_has (connectedNodeIds s) (Node.id n) = true <-> is_connected s n.
Proof.
  rewrite Set_has_In. unfold connectedNodeIds, is_connected.
  rewrite connected_fold_In. simpl. tauto.
Qed.

Lemma isolatedNodes_In (s : Editor) (n : Node.t) :
  In n (isolatedNodes s) <-> In n (nodes s) /\ is_isolated s n.
Proof.
  unfold isolatedNodes, is_isolated.
  rewrite filter_In, !andb_true_iff, !negb_true_iff, !String.eqb_neq.
  rewrite <- connectedNodeIds_has.
  destruct (Set_has (connectedNodeIds s) (Node.id n)); intuition congruence.
Qed.

Lemma has_type_exists (kind : string) (ns : list Node.t) :
  has_type kind ns = true <-> exists n, In n ns /\ Node.type n = kind.
Proof.
  unfold has_type. rewrite existsb_exists.
  split; intros (n & Hin & H); exists n; (split; [exact Hin|]);
    apply String.eqb_eq; exact H.
Qed.

(** The three checks of [validateScenario], one after the other. *)
Lemma validation_issues_parts (s : Editor) :
  validation_issues s =
  (if has_type "start" (nodes s) then [] else [missing_start_issue]) ++
  (if has_type "end" (nodes s) then [] else [missing_end_issue]) ++
  (match isolatedNodes s with
   | [] => []
   | _ :: _ => [isolated_issue_text (isolatedNodes s)]
   end).
Proof.
  unfold validation_issues, isolated_issue_text.
  destruct (has_type "start" (nodes s)), (has_type "end" (nodes s)),
    (isolatedNodes s); reflexivity.
Qed.

Lemma is_isolated_issue_text (isolated : list Node.t) :
  is_isolated_issue (isolated_issue_text isolated) = true.
Proof.
  unfold is_isolated_issue, isolated_issue_text.
  apply String.prefix_correct.
  generalize (String.concat ", "
                (map (fun n => ToString (Node.title n)) isolated)).
  intros rest.
  induction isolated_issue_prefix as [|a p IH]; simpl.
  - destruct rest; reflexivity.
  - rewrite IH. reflexivity.
Qed.

Lemma isolated_issue_text_distinct (isolated : list Node.t) :
  isolated_issue_text isolated <> missing_start_issue /\
  isolated_issue_text isolated <> missing_end_issue.
Proof.
  unfold isolated_issue_text, isolated_issue_prefix, missing_start_issue,
    missing_end_issue.
  split; simpl; discriminate.
Qed.

Lemma missing_start_reported (s : Editor) :
  In missing_start_issue (validation_issues s) <->
  has_type "start" (nodes s) = false.
Proof.
  rewrite validation_issues_parts, !in_app_iff.
  destruct (isolated_issue_text_distinct (isolatedNodes s)) as [Hd _].
  destruct (has_type "start" (nodes s)); simpl.
  - split; [|discriminate]. intros [[]|[H|H]].
    + destruct (has_type _ (nodes s)); simpl in H; [contradiction|].
      destruct H as [H|[]]. discriminate H.
    + destruct (isolatedNodes s); simpl in H; [contradiction|].
      destruct H as [H|[]]. contradiction.
  - split; [reflexivity|]. intros _. left. left. reflexivity.
Qed.

Lemma missing_end_reported (s : Editor) :
  In missing_end_issue (validation_issues s) <->
  has_type "end" (nodes s) = false.
Proof.
  rewrite validation_issues_parts, !in_app_iff.
  destruct (isolated_issue_text_distinct (isolatedNodes s)) as [_ Hd].
  destruct (has_type "end" (nodes s)); simpl.
  - split; [|discriminate]. intros [H|[[]|H]].
    + destruct (has_type _ (nodes s)); simpl in H; [contradiction|].
      destruct H as [H|[]]. discriminate H.
    + destruct (isolatedNodes s); simpl in H; [contradiction|].
      destruct H as [H|[]]. contradiction.
  - split; [reflexivity|]. intros _. right. left. left. reflexivity.
Qed.

Lemma isolated_issue_reported (s : Editor) :
  filter is_isolated_issue (validation_issues s) =
  match isolatedNodes s with
  | [] => []
  | _ :: _ => [isolated_issue_text (isolatedNodes s)]
  end.
Proof.
  rewrite validation_issues_parts, !filter_app.
  assert (H1 : forall b : bool,
    filter is_isolated_issue (if b then [] else [missing_start_issue]) = []).
  { intros []; reflexivity. }
  assert (H2 : forall b : bool,
    filter is_isolated_issue (if b then [] else [missing_end_issue]) = []).
  { intros []; reflexivity. }
  rewrite H1, H2. simpl.
  destruct (isolatedNodes s) eqn:E; [reflexivity|]. rewrite <- E. simpl.
  rewrite is_isolated_issue_text. reflexivity.
Qed.

(** Two isolated nodes are reported as one issue that lists both titles,
    not as one issue per node. *)
Lemma validation_two_isolated_nodes_one_issue :
  List.length (isolatedNodes two_isolated_editor) = 2%nat /\
  validation_issues two_isolated_editor =
    [ "Найдены изолированные узлы: Состояние, Действие" ] /\
  isolated_issue_count two_isolated_editor <>
    List.length (isolatedNodes two_isolated_editor).
Proof.
  split; [reflexivity|]. split; [reflexivity|].
  vm_compute. discriminate.
Qed.

Lemma touched_by_connection (s : Editor) (n : Node.t) :
  existsb
    (fun c => Z.eqb (Connection.from c) (Node.id n) ||
              Z.eqb (Connection.to c) (Node.id n))
    (connections s) = true <-> is_connected s n.
Proof.
  rewrite existsb_exists. unfold is_connected.
  split; intros (c & Hin & H); exists c; (split; [exact Hin|]).
  - apply orb_true_iff in H. rewrite !Z.eqb_eq in H. exact H.
  - apply orb_true_iff. rewrite !Z.eqb_eq. exact H.
Qed.

Lemma is_isolatedb_iff (s : Editor) (n : Node.t) :
  is_isolatedb s n = true <-> is_isolated s n.
Proof.
  unfold is_isolatedb, is_isolated.
  rewrite !andb_true_iff, !negb_true_iff, !String.eqb_neq.
  rewrite <- touched_by_connection.
  destruct (existsb _ (connections s)); intuition congruence.
Qed.

(** The [Set] of connected ids answers membership as a scan of the
    connection array does, so [isolatedNodes] is the node array filtered,
    in array order, by the isolation test. *)
Lemma isolatedNodes_filter (s : Editor) :
  isolatedNodes s = filter (is_isolatedb s) (nodes s).
Proof.
  unfold isolatedNodes, is_isolatedb. apply filter_ext. intros n.
  f_equal. f_equal. f_equal.
  apply eq_true_iff_eq.
  rewrite connectedNodeIds_has, touched_by_connection. reflexivity.
Qed.

(** C4, as the code has it.  On an editor with at least one node,
    [validateScenario] leaves the editor unchanged and announces the list
    of issues made of, in this order: the missing-start issue iff no node
    has type start; the missing-end issue iff no node has type end; and,
    iff at least one node is isolated (type neither start nor end, id the
    [from] or [to] of no connection), a single isolated-nodes issue that
    lists the titles of all isolated nodes in array order.  The last
    conjunct gives the list itself: each issue at most once, in that
    order, the titles those of the node array filtered by the isolation
    test and joined by a comma and a space. *)
Theorem validateScenario_issue_list (s : Editor) :
  nodes s <> [] ->
  let issues := validation_issues s in
  validateScenario s =
    (s, [ ("Проверка сценария...", "info");
          match issues with
          | [] => ("Сценарий прошел проверку успешно", "success")
          | _ :: _ =>
              (String.append "Найдены проблемы: " (String.concat "; " issues),
               "warning")
          end ]) /\
  (In missing_start_issue issues <->
   ~ exists n, In n (nodes s) /\ Node.type n = "start") /\
  (In missing_end_issue issues <->
   ~ exists n, In n (nodes s) /\ Node.type n = "end") /\
  (forall n, In n (isolatedNodes s) <-> In n (nodes s) /\ is_isolated s n) /\
  filter is_isolated_issue issues =
    match isolatedNodes s with
    | [] => []
    | _ :: _ => [isolated_issue_text (isolatedNodes s)]
    end /\
  (forall issue, In issue issues ->
     issue = missing_start_issue \/ issue = missing_end_issue \/
     issue = isolated_issue_text (isolatedNodes s)) /\
  (List.length issues <= 3)%nat /\
  (has_type "start" (nodes s) = true <->
   exists n, In n (nodes s) /\ Node.type n = "start") /\
  (has_type "end" (nodes s) = true <->
   exists n, In n (nodes s) /\ Node.type n = "end") /\
  (forall n, is_isolatedb s n = true <-> is_isolated s n) /\
  issues =
    (if has_type "start" (nodes s) then [] else [missing_start_issue]) ++
    (if has_type "end" (nodes s) then [] else [missing_end_issue]) ++
    match filter (is_isolatedb s) (nodes s) with
    | [] => []
    | _ :: _ =>
        [ String.append isolated_issue_prefix
            (String.concat ", "
               (map (fun n => ToString (Node.title n))
                    (filter (is_isolatedb s) (nodes s)))) ]
    end.
Proof.
  intros Hne issues. subst issues.
  split; [|split; [|split; [|split; [|split; [|split;
    [|split; [|split; [|split; [|split]]]]]]]]].
  - unfold validateScenario.
    assert (Hlen : Nat.eqb (List.length (nodes s)) 0 = false).
    { destruct (nodes s); [congruence|reflexivity]. }
    rewrite Hlen. destruct (validation_issues s); reflexivity.
  - rewrite missing_start_reported, <- has_type_exists.
    symmetry. apply not_true_iff_false.
  - rewrite missing_end_reported, <- has_type_exists.
    symmetry. apply not_true_iff_false.
  - apply isolatedNodes_In.
  - apply isolated_issue_reported.
  - intros issue. rewrite validation_issues_parts, !in_app_iff.
    destruct (has_type "start" (nodes s)), (has_type "end" (nodes s)),
      (isolatedNodes s) eqn:E; simpl; intuition auto.
  - rewrite validation_issues_parts, !length_app.
    destruct (has_type "start" (nodes s)), (has_type "end" (nodes s)),
      (isolatedNodes s); simpl; lia.
  - apply has_type_exists.
  - apply has_type_exists.
  - apply is_isolatedb_iff.
  - rewrite validation_issues_parts, isolatedNodes_filter.
    reflexivity.
Qed.

Lemma validateScenario_issue_list_witness :
  ~ In missing_start_issue (validation_issues one_isolated_editor) /\
  ~ In missing_end_issue (validation_issues one_isolated_editor) /\
  filter is_isolated_issue (validation_issues one_isolated_editor) =
    [ "Найдены изолированные узлы: Состояние" ] /\
  validation_issues one_isolated_editor =
    [ "Найдены изолированные узлы: Состояние" ].
Proof.
  destruct (validateScenario_issue_list one_isolated_editor)
    as (_ & Hstart & Hend & _ & Hiso & _ & _ & _ & _ & _ & Hlist).
  - discriminate.
  - split; [|split; [|split; [|rewrite Hlist; reflexivity]]].
    + intros H. apply Hstart in H. apply H.
      eexists. split; [left; reflexivity|reflexivity].
    + intros H. apply Hend in H. apply H.
      eexists. split; [right; left; reflexivity|reflexivity].
    + rewrite Hiso. reflexivity.
Defined.

(** One start node, one end node, one unconnected node: exactly one issue,
    the isolated-nodes one. *)
Example validation_one_isolated_node :
  validation_issues one_isolated_editor =
    [ "Найдены изолированные узлы: Состояние" ] /\
  isolated_issue_count one_isolated_editor = 1%nat.
Proof. split; reflexivity. Qed.

(** With no start node, no end node and two isolated nodes, one of them
    dropped with the kind ["constructor"], the three issues come in the
    order of the checks and the titles in array order. *)
Example validation_all_three_issues :
  validation_issues
    (addNodes constructor
       [ AddCall.mk 1 1 "state" 0 0; AddCall.mk 2 2 "constructor" 200 0 ]) =
  [ "Отсутствует начальный узел";
    "Отсутствует конечный узел";
    "Найдены изолированные узлы: Состояние, function Object() { [native code] }" ].
Proof. reflexivity. Qed.

(** A start node connected to a state node, and no end node: only the
    missing-end issue. *)
Example validation_start_connected_to_state :
  let s0 := addNodes constructor
              [ AddCall.mk 1 1 "start" 100 100; AddCall.mk 2 2 "state" 300 100 ] in
  let s := with_graph s0 (nodes s0) [ demo_connection 1 2 "#27ae60" ] in
  validation_issues s = [ missing_end_issue ].
Proof. reflexivity. Qed.

(** The demo scenario passes. *)
Example validation_demo :
  snd (validateScenario demo_editor) =
  [ ("Проверка сценария...", "info");
    ("Сценарий прошел проверку успешно", "success") ].
Proof. reflexivity. Qed.

(** [clearWorkspace], once confirmed, empties both arrays. *)
Example clearWorkspace_demo :
  nodes (fst (clearWorkspace demo_editor true)) = [] /\
  connections (fst (clearWorkspace demo_editor true)) = [].
Proof. split; reflexivity. Qed.

(** ** Invariants of the event loop *)

Lemma invariant_same_graph (s s' : Editor) :
  nodes s' = nodes s -> connections s' = connections s ->
  next_addr s' = next_addr s -> scale_in_range s' ->
  editor_invariant s -> editor_invariant s'.
Proof.
  intros Hn Hc Ha Hs ((Hd & Hal) & Hdang & Hsize & _).
  unfold editor_invariant, well_formed, objects_distinct, allocated,
    no_dangling_connection, default_size.
  rewrite Hn, Hc, Ha.
  split; [split; assumption|]. split; [assumption|]. split; assumption.
Qed.

Lemma node_at_address_some (ns : list Node.t) (a : nat) (n : Node.t) :
  node_at_address ns a = Some n -> In n ns /\ Node.addr n = a.
Proof.
  unfold node_at_address. intros H. apply find_some in H.
  destruct H as [Hin Heq]. apply Nat.eqb_eq in Heq. split; assumption.
Qed.

Lemma same_address_same_node (ns : list Node.t) (n m : Node.t) :
  NoDup (map Node.addr ns) -> In n ns -> In m ns ->
  Node.addr n = Node.addr m -> n = m.
Proof.
  induction ns as [|h t IH]; simpl; intros Hnd Hn Hm Heq; [contradiction|].
  inversion Hnd as [|a l Hnotin Hnd']; subst.
  destruct Hn as [Hn|Hn], Hm as [Hm|Hm].
  - congruence.
  - subst h. exfalso. apply Hnotin. rewrite Heq. apply in_map, Hm.
  - subst h. exfalso. apply Hnotin. rewrite <- Heq. apply in_map, Hn.
  - apply IH; assumption.
Qed.

Lemma node_at_address_found (ns : list Node.t) (n : Node.t) :
  NoDup (map Node.addr ns) -> In n ns ->
  node_at_address ns (Node.addr n) = Some n.
Proof.
  intros Hnd Hin. unfold node_at_address.
  destruct (find (fun m => Nat.eqb (Node.addr m) (Node.addr n)) ns)
    as [m|] eqn:E.
  - apply find_some in E. destruct E as [Hm Heq]. apply Nat.eqb_eq in Heq.
    f_equal. apply (same_address_same_node ns); assumption.
  - exfalso. apply (find_none _ _ E) in Hin.
    rewrite Nat.eqb_refl in Hin. discriminate.
Qed.

Lemma removeNode_invariant (s : Editor) (n : Node.t) :
  In n (nodes s) -> editor_invariant s -> editor_invariant (removeNode s n).
Proof.
  intros Hin (Hwf & Hdang & Hsize & Hscale).
  split; [apply removeNode_well_formed, Hwf|].
  destruct Hwf as [Hd _].
  destruct (indexOf_splice (nodes s) n Hd Hin)
    as (i & before & after & Hi & Hns & Hsp).
  assert (Hkeep : forall m, In m (nodes s) -> Node.id m <> Node.id n ->
                            In m (before ++ after)).
  { intros m Hm Hne. rewrite Hns in Hm. rewrite in_app_iff in *. simpl in Hm.
    destruct Hm as [Hm|[Hm|Hm]]; auto. subst m. congruence. }
  unfold removeNode. rewrite Hi.
  unfold no_dangling_connection, default_size, scale_in_range. simpl.
  rewrite Hsp. split; [|split; [|exact Hscale]].
  - intros c Hc. apply filter_In in Hc. destruct Hc as [Hc Hb].
    rewrite andb_true_iff, !negb_true_iff, !Z.eqb_neq in Hb.
    destruct Hb as [Hfrom Hto].
    destruct (Hdang c Hc) as [(m1 & Hm1 & E1) (m2 & Hm2 & E2)].
    split; [exists m1|exists m2]; (split; [apply Hkeep|]); congruence.
  - unfold default_size in Hsize. rewrite Hns in Hsize.
    apply Forall_app in Hsize. destruct Hsize as [H1 H2].
    apply Forall_app. split; [exact H1|]. inversion H2; assumption.
Qed.

Lemma removeNode_at_invariant (s : Editor) (a : nat) :
  editor_invariant s -> editor_invariant (removeNode_at s a).
Proof.
  intros H. unfold removeNode_at.
  destruct (node_at_address (nodes s) a) as [n|] eqn:E; [|exact H].
  apply node_at_address_some in E. apply removeNode_invariant; tauto.
Qed.

Lemma addNode_invariant (s : Editor) now now' type x y :
  editor_invariant s -> editor_invariant (addNode s now now' type x y).
Proof.
  intros (Hwf & Hdang & Hsize & Hscale).
  split; [apply addNode_well_formed, Hwf|]. split; [|split; [|exact Hscale]].
  - intros c Hc. destruct (Hdang c Hc) as [(m1 & Hm1 & E1) (m2 & Hm2 & E2)].
    split; [exists m1|exists m2]; (split; [|assumption]);
      simpl; apply in_or_app; left; assumption.
  - unfold default_size. simpl. apply Forall_app. split; [exact Hsize|].
    constructor; [split; reflexivity|constructor].
Qed.

Lemma move_node_invariant (s : Editor) (a : nat) (x y : Q) :
  editor_invariant s ->
  editor_invariant (with_graph s (move_node (nodes s) a x y) (connections s)).
Proof.
  intros ((Hd & Hal) & Hdang & Hsize & Hscale).
  assert (Haddr : map Node.addr (move_node (nodes s) a x y) =
                  map Node.addr (nodes s)).
  { unfold move_node. rewrite map_map. apply map_ext.
    intros n. destruct (Nat.eqb (Node.addr n) a); reflexivity. }
  unfold editor_invariant, well_formed, objects_distinct, allocated,
    no_dangling_connection, default_size. simpl.
  split; [split|split; [|split; [|exact Hscale]]].
  - rewrite Haddr. exact Hd.
  - unfold move_node. rewrite Forall_map.
    eapply Forall_impl; [|exact Hal]. simpl. intros n Hn.
    destruct (Nat.eqb (Node.addr n) a); exact Hn.
  - assert (Hid : forall m, In m (nodes s) ->
             exists m', In m' (move_node (nodes s) a x y) /\
                        Node.id m' = Node.id m).
    { intros m Hm.
      exists (if Nat.eqb (Node.addr m) a then set_position m x y else m).
      split.
      - unfold move_node.
        apply (in_map (fun n => if Nat.eqb (Node.addr n) a
                                then set_position n x y else n)) in Hm.
        exact Hm.
      - destruct (Nat.eqb (Node.addr m) a); reflexivity. }
    intros c Hc. destruct (Hdang c Hc) as [(m1 & Hm1 & E1) (m2 & Hm2 & E2)].
    destruct (Hid m1 Hm1) as (m1' & H1 & I1).
    destruct (Hid m2 Hm2) as (m2' & H2 & I2).
    split; [exists m1'|exists m2']; (split; [assumption|congruence]).
  - unfold move_node. rewrite Forall_map.
    eapply Forall_impl; [|exact Hsize]. simpl. intros n Hn.
    destruct (Nat.eqb (Node.addr n) a); exact Hn.
Qed.

(** Finds, among the first elements of a literal array, the node with the
    id the goal asks for. *)
Ltac pick_node :=
  first
    [ solve [eexists; split; [left; reflexivity|reflexivity]]
    | solve [eexists; split; [right; left; reflexivity|reflexivity]]
    | solve [eexists; split; [right; right; left; reflexivity|reflexivity]]
    | solve [eexists; split;
             [right; right; right; left; reflexivity|reflexivity]]
    | solve [eexists; split;
             [right; right; right; right; left; reflexivity|reflexivity]] ].

Lemma loadScenario_invariant (s : Editor) (id : JSValue) (canvas : Canvas.t) :
  scale_in_range s -> editor_invariant (fst (loadScenario s id canvas)).
Proof.
  intros Hscale.
  split; [apply loadScenario_well_formed|].
  unfold no_dangling_connection, default_size, scale_in_range,
    loadScenario, centerView. simpl.
  split; [|split; [|exact Hscale]].
  - intros c [<-|[<-|[<-|[<-|[]]]]]; simpl; split; pick_node.
  - repeat constructor.
Qed.

Lemma zoom_step_same_graph hypot (s : Editor) (i : ZoomInput) :
  nodes (zoom_step hypot s i) = nodes s /\
  connections (zoom_step hypot s i) = connections s /\
  next_addr (zoom_step hypot s i) = next_addr s.
Proof.
  destruct i as [rect e| | |touches]; simpl; try (repeat split; fail).
  unfold handlePinchZoom.
  destruct touches as [|t1 [|t2 [|t3 ts]]]; try (repeat split; fail).
  destruct (pinch_started s); repeat split.
Qed.

Lemma zoom_step_invariant hypot (s : Editor) (i : ZoomInput) :
  editor_invariant s -> editor_invariant (zoom_step hypot s i).
Proof.
  intros H. destruct (zoom_step_same_graph hypot s i) as (Hn & Hc & Ha).
  apply (invariant_same_graph s); try assumption.
  apply zoom_step_scale_in_range. apply H.
Qed.

Lemma onMouseDown_invariant (s : Editor) rect e :
  editor_invariant s -> editor_invariant (onMouseDown s rect e).
Proof.
  intros H. assert (Hs : scale_in_range s) by apply H.
  unfold onMouseDown.
  destruct (getNodeAt s _ _); [apply (invariant_same_graph s); auto|].
  destruct (Z.eqb (MouseEvent.button e) 1 || MouseEvent.ctrlKey e);
    apply (invariant_same_graph s); auto.
Qed.

Lemma onMouseMove_invariant (s : Editor) rect e :
  editor_invariant s -> editor_invariant (onMouseMove s rect e).
Proof.
  intros H. assert (Hs : scale_in_range s) by apply H.
  unfold onMouseMove.
  destruct (dragging s), (selectedNode s), (isPanning s);
    try (apply move_node_invariant, H);
    try exact H;
    apply (invariant_same_graph s); auto.
Qed.

Lemma onMouseUp_invariant (s : Editor) :
  editor_invariant s -> editor_invariant (onMouseUp s).
Proof.
  intros H. apply (invariant_same_graph s); auto. apply H.
Qed.

Lemma onKeyDown_invariant (s : Editor) (e : KeyboardEvent.t) :
  editor_invariant s -> editor_invariant (fst (onKeyDown s e)).
Proof.
  intros H. assert (Hs : scale_in_range s) by apply H.
  unfold onKeyDown, saveScenario.
  destruct (String.eqb (KeyboardEvent.key e) "Delete" ||
            String.eqb (KeyboardEvent.key e) "Backspace").
  - destruct (selectedNode s) as [a|]; [|exact H]. simpl.
    assert (H1 := removeNode_at_invariant s a H).
    apply (invariant_same_graph (removeNode_at s a)); auto. apply H1.
  - destruct (String.eqb (KeyboardEvent.key e) "Escape");
      [apply (invariant_same_graph s); auto|].
    destruct (KeyboardEvent.ctrlKey e && String.eqb (KeyboardEvent.key e) "s");
      [|exact H].
    destruct (Nat.eqb (List.length (nodes s)) 0); exact H.
Qed.

Lemma clearWorkspace_invariant (s : Editor) (confirmed : bool) :
  editor_invariant s -> editor_invariant (fst (clearWorkspace s confirmed)).
Proof.
  intros H. destruct confirmed; [|exact H].
  split; [apply (clearWorkspace_well_formed s true), H|].
  split; [intros c []|]. split; [constructor|apply H].
Qed.

Lemma centerView_same_graph (s : Editor) (canvas : Canvas.t) :
  nodes (centerView s canvas) = nodes s /\
  connections (centerView s canvas) = connections s /\
  next_addr (centerView s canvas) = next_addr s /\
  scale (centerView s canvas) = scale s.
Proof.
  unfold centerView. destruct (nodes s) eqn:E; simpl; rewrite ?E; repeat split.
Qed.

(** Every handler keeps the invariant. *)
Lemma dispatch_invariant hypot (s : Editor) (ev : UIEvent) :
  editor_invariant s -> editor_invariant (fst (dispatch hypot s ev)).
Proof.
  intros H. assert (Hs : scale_in_range s) by apply H.
  destruct ev; simpl.
  - apply onMouseDown_invariant, H.
  - apply onMouseMove_invariant, H.
  - apply onMouseUp_invariant, H.
  - apply (zoom_step_invariant hypot s (Wheel rect e)), H.
  - unfold onTouchStart. destruct touches as [|t [|t' ts]]; try exact H.
    apply onMouseDown_invariant, H.
  - unfold onTouchMove. destruct touches as [|t [|t' [|t'' ts]]]; try exact H.
    + apply onMouseMove_invariant, H.
    + apply (zoom_step_invariant hypot s (Pinch [t; t'])), H.
  - apply onMouseUp_invariant, H.
  - apply onKeyDown_invariant, H.
  - unfold onDrop. destruct (String.eqb type EmptyString); [exact H|].
    apply addNode_invariant, H.
  - apply (zoom_step_invariant hypot s ZoomInButton), H.
  - apply (zoom_step_invariant hypot s ZoomOutButton), H.
  - destruct (centerView_same_graph s canvas) as (Hn & Hc & Ha & Hsc).
    apply (invariant_same_graph s); auto.
    unfold scale_in_range. rewrite Hsc. exact Hs.
  - apply clearWorkspace_invariant, H.
  - unfold saveScenario. destruct (Nat.eqb _ 0); exact H.
  - unfold runScenario. destruct (Nat.eqb _ 0); exact H.
  - unfold validateScenario. destruct (Nat.eqb _ 0); exact H.
  - apply loadScenario_invariant, Hs.
  - apply removeNode_at_invariant, H.
Qed.

Lemma constructor_invariant : editor_invariant constructor.
Proof.
  split; [apply constructor_well_formed|].
  split; [intros c []|]. split; [constructor|].
  unfold scale_in_range. simpl. split; lra.
Qed.

Lemma dispatch_all_invariant hypot (events : list UIEvent) (s : Editor) :
  editor_invariant s -> editor_invariant (dispatch_all hypot s events).
Proof.
  revert s. induction events as [|ev rest IH]; intros s H; [exact H|].
  simpl. apply IH. apply dispatch_invariant, H.
Qed.

(** Whatever events the page delivers to a fresh editor, every connection
    it holds starts and ends at the id of a node in the array: deletion by
    key or by the panel button never leaves a connection behind. *)
Theorem events_never_leave_dangling_connection
  hypot (events : list UIEvent) :
  no_dangling_connection (dispatch_all hypot constructor events).
Proof. apply dispatch_all_invariant, constructor_invariant. Qed.

(** Whatever events the page delivers to a fresh editor, every node in the
    array is 120 wide and 80 high: no handler resizes a node. *)
Theorem events_keep_node_size hypot (events : list UIEvent) :
  default_size (dispatch_all hypot constructor events).
Proof. apply dispatch_all_invariant, constructor_invariant. Qed.

(** Whatever events the page delivers to a fresh editor, the scale stays
    in [0.1, 5]. *)
Theorem events_keep_scale_in_range hypot (events : list UIEvent) :
  scale_in_range (dispatch_all hypot constructor events).
Proof. apply dispatch_all_invariant, constructor_invariant. Qed.

(** ** Dragging and touch *)

Lemma getNodeAt_In (s : Editor) (x y : Q) (n : Node.t) :
  getNodeAt s x y = Some n -> In n (nodes s) /\ in_box n x y.
Proof.
  unfold getNodeAt. intros H. apply getNodeAt_from_some in H.
  destruct H as (before & after & Hns & Hbox & _).
  split; [|exact Hbox]. rewrite Hns. apply in_or_app. right. left. reflexivity.
Qed.

Lemma move_node_addresses (ns : list Node.t) (a : nat) (x y : Q) :
  map Node.addr (move_node ns a x y) = map Node.addr ns.
Proof.
  unfold move_node. rewrite map_map. apply map_ext.
  intros n. destruct (Nat.eqb (Node.addr n) a); reflexivity.
Qed.

Lemma move_node_moved (ns : list Node.t) (n : Node.t) (x y : Q) :
  NoDup (map Node.addr ns) -> In n ns ->
  node_at_address (move_node ns (Node.addr n) x y) (Node.addr n) =
  Some (set_position n x y).
Proof.
  intros Hnd Hin.
  change (Node.addr n) with (Node.addr (set_position n x y)) at 2.
  apply node_at_address_found.
  - rewrite move_node_addresses. exact Hnd.
  - unfold move_node.
    apply (in_map (fun m => if Nat.eqb (Node.addr m) (Node.addr n)
                            then set_position m x y else m)) in Hin.
    rewrite Nat.eqb_refl in Hin. exact Hin.
Qed.

Lemma move_node_others (ns : list Node.t) (n m : Node.t) (x y : Q) :
  NoDup (map Node.addr ns) -> In n ns -> In m ns -> m <> n ->
  In m (move_node ns (Node.addr n) x y).
Proof.
  intros Hnd Hn Hm Hne. unfold move_node. assert (Hm' := Hm).
  apply (in_map (fun k => if Nat.eqb (Node.addr k) (Node.addr n)
                          then set_position k x y else k)) in Hm.
  destruct (Nat.eqb (Node.addr m) (Node.addr n)) eqn:E; [|exact Hm].
  apply Nat.eqb_eq in E. exfalso. apply Hne.
  apply (same_address_same_node ns); assumption.
Qed.

(** Pressing the mouse on a node and moving the pointer moves that node,
    and no other, by the pointer's displacement divided by the scale; the
    connections and the viewport stay as they were. *)
Theorem drag_moves_node_with_pointer
  (s : Editor) (rect : DOMRect.t) (e1 e2 : MouseEvent.t) (n : Node.t) :
  objects_distinct s ->
  (0 < scale s)%Q ->
  getNodeAt s (toGraphX s (MouseEvent.clientX e1 - DOMRect.left rect))
              (toGraphY s (MouseEvent.clientY e1 - DOMRect.top rect))
    = Some n ->
  let s' := onMouseMove (onMouseDown s rect e1) rect e2 in
  exists x' y',
    (x' == Node.x n +
           (MouseEvent.clientX e2 - MouseEvent.clientX e1) / scale s)%Q /\
    (y' == Node.y n +
           (MouseEvent.clientY e2 - MouseEvent.clientY e1) / scale s)%Q /\
    node_at_address (nodes s') (Node.addr n) = Some (set_position n x' y') /\
    (forall m, In m (nodes s) -> m <> n -> In m (nodes s')) /\
    List.length (nodes s') = List.length (nodes s) /\
    connections s' = connections s /\
    scale s' = scale s /\ panX s' = panX s /\ panY s' = panY s.
Proof.
  intros Hd Hpos Hhit s'. subst s'.
  destruct (getNodeAt_In _ _ _ _ Hhit) as [Hin _].
  unfold toGraphX, toGraphY in Hhit.
  unfold onMouseDown. rewrite Hhit. unfold onMouseMove. simpl.
  eexists. eexists.
  split; [|split; [|split; [apply move_node_moved; assumption|]]].
  - field. lra.
  - field. lra.
  - split; [intros m Hm Hne; apply move_node_others; assumption|].
    split; [unfold move_node; apply length_map|].
    repeat split.
Qed.

Lemma drag_moves_node_with_pointer_witness :
  exists x' y',
    (x' == 350 /\ y' == 160)%Q /\
    node_at_address
      (nodes (onMouseMove
                (onMouseDown demo_editor (DOMRect.mk 0 0)
                             (MouseEvent.mk 350 200 0 false))
                (DOMRect.mk 0 0) (MouseEvent.mk 400 260 0 false))) 1
    = Some (set_position demo_state_node x' y').
Proof.
  destruct (drag_moves_node_with_pointer demo_editor (DOMRect.mk 0 0)
              (MouseEvent.mk 350 200 0 false) (MouseEvent.mk 400 260 0 false)
              demo_state_node)
    as (x' & y' & Hx & Hy & Hn & _).
  - apply loadScenario_well_formed.
  - reflexivity.
  - reflexivity.
  - exists x', y'. split; [|exact Hn].
    split; [rewrite Hx|rewrite Hy]; reflexivity.
Defined.

Lemma touch_event_keeps_pan hypot (s : Editor) (ev : UIEvent) :
  is_touch_event ev = true -> isPanning s = false ->
  let s' := fst (dispatch hypot s ev) in
  panX s' = panX s /\ panY s' = panY s /\ isPanning s' = false.
Proof.
  intros Ht Hp. destruct ev; try discriminate Ht; simpl.
  - unfold onTouchStart. destruct touches as [|t [|t' ts]]; auto.
    unfold onMouseDown, touch_as_mouse. simpl.
    destruct (getNodeAt s _ _); simpl; auto.
  - unfold onTouchMove. destruct touches as [|t [|t' [|t'' ts]]]; auto.
    + unfold onMouseMove. rewrite Hp.
      destruct (dragging s), (selectedNode s); simpl; auto.
    + unfold handlePinchZoom. destruct (pinch_started s); simpl; auto.
  - unfold onTouchEnd, onMouseUp. simpl. auto.
Qed.

(** Touch input never translates the view: starting with no pan in
    progress, after any sequence of touch-start, touch-move and touch-end
    events (one finger or more, on or off a node) [panX] and [panY] are
    what they were.  A one-finger touch is replayed as a primary-button
    mouse event without Ctrl, which does not start a pan. *)
Theorem touch_never_pans hypot (events : list UIEvent) (s : Editor) :
  Forall (fun ev => is_touch_event ev = true) events ->
  isPanning s = false ->
  panX (dispatch_all hypot s events) = panX s /\
  panY (dispatch_all hypot s events) = panY s /\
  isPanning (dispatch_all hypot s events) = false.
Proof.
  revert s. induction events as [|ev rest IH]; intros s Hall Hp; simpl.
  - auto.
  - inversion Hall as [|? ? Hev Hrest]; subst.
    destruct (touch_event_keeps_pan hypot s ev Hev Hp) as (Hx & Hy & Hp').
    destruct (IH _ Hrest Hp') as (Hx' & Hy' & Hp'').
    rewrite Hx', Hy', Hx, Hy. auto.
Qed.

Lemma touch_never_pans_witness :
  panX (dispatch_all hypot_on_axis demo_editor
          [ TouchStart (DOMRect.mk 0 0) [touch 10 20];
            TouchMove (DOMRect.mk 0 0) [touch 200 220];
            TouchMove (DOMRect.mk 0 0) [touch 0 0; touch 100 0];
            TouchEnd ])
  = panX demo_editor.
Proof.
  destruct (touch_never_pans hypot_on_axis
              [ TouchStart (DOMRect.mk 0 0) [touch 10 20];
                TouchMove (DOMRect.mk 0 0) [touch 200 220];
                TouchMove (DOMRect.mk 0 0) [touch 0 0; touch 100 0];
                TouchEnd ]
              demo_editor) as (H & _).
  - repeat constructor.
  - reflexivity.
  - exact H.
Defined.

(** ** Keyboard deletion *)

Lemma is_delete_key_test (k : KeyboardEvent.t) :
  is_delete_key k ->
  String.eqb (KeyboardEvent.key k) "Delete" ||
  String.eqb (KeyboardEvent.key k) "Backspace" = true.
Proof.
  intros [H|H]; rewrite H; reflexivity.
Qed.

(** Pressing the mouse on a node and then Delete or Backspace removes that
    node and no other, keeps exactly the connections that do not touch its
    id, and clears the selection. *)
Theorem delete_key_removes_pressed_node
  (s : Editor) (rect : DOMRect.t) (e : MouseEvent.t) (k : KeyboardEvent.t)
  (n : Node.t) :
  objects_distinct s ->
  getNodeAt s (toGraphX s (MouseEvent.clientX e - DOMRect.left rect))
              (toGraphY s (MouseEvent.clientY e - DOMRect.top rect))
    = Some n ->
  is_delete_key k ->
  let s' := fst (onKeyDown (onMouseDown s rect e) k) in
  selectedNode s' = None /\
  (forall m, In m (nodes s') <-> In m (nodes s) /\ m <> n) /\
  (forall c, In c (connections s') <->
             In c (connections s) /\
             Connection.from c <> Node.id n /\ Connection.to c <> Node.id n).
Proof.
  intros Hd Hhit Hk s'. subst s'.
  destruct (getNodeAt_In _ _ _ _ Hhit) as [Hin _].
  unfold toGraphX, toGraphY in Hhit.
  unfold onMouseDown. rewrite Hhit.
  unfold onKeyDown. rewrite (is_delete_key_test k Hk).
  cbn [selectedNode with_selection].
  unfold removeNode_at. cbn [nodes with_selection].
  rewrite (node_at_address_found (nodes s) n Hd Hin).
  destruct (indexOf_splice (nodes s) n Hd Hin)
    as (i & before & after & Hi & Hns & Hsp).
  unfold removeNode. cbn [nodes connections with_selection]. rewrite Hi.
  cbn [fst selectedNode nodes connections with_selection with_graph].
  rewrite Hsp.
  assert (Hfresh : ~ In n (before ++ after)).
  { apply NoDup_remove_2. rewrite <- Hns.
    apply (NoDup_map_inv Node.addr). exact Hd. }
  split; [reflexivity|]. split.
  - intros m. rewrite Hns, !in_app_iff. simpl.
    rewrite in_app_iff in Hfresh. split.
    + intros H. split; [tauto|]. intros ->. tauto.
    + intros [[H|[H|H]] Hne]; auto. congruence.
  - intros c. rewrite filter_In, andb_true_iff, !negb_true_iff, !Z.eqb_neq.
    tauto.
Qed.

Lemma delete_key_removes_pressed_node_witness :
  selectedNode
    (fst (onKeyDown
            (onMouseDown demo_editor (DOMRect.mk 0 0)
                         (MouseEvent.mk 350 200 0 false))
            (KeyboardEvent.mk "Delete" false))) = None /\
  ~ In demo_state_node
      (nodes
         (fst (onKeyDown
                 (onMouseDown demo_editor (DOMRect.mk 0 0)
                              (MouseEvent.mk 350 200 0 false))
                 (KeyboardEvent.mk "Delete" false)))).
Proof.
  assert (Hd : objects_distinct demo_editor)
    by apply loadScenario_well_formed.
  assert (Hk : is_delete_key (KeyboardEvent.mk "Delete" false))
    by (left; reflexivity).
  pose proof (delete_key_removes_pressed_node demo_editor (DOMRect.mk 0 0)
                (MouseEvent.mk 350 200 0 false)
                (KeyboardEvent.mk "Delete" false) demo_state_node
                Hd eq_refl Hk) as H.
  cbv zeta in H. destruct H as (H1 & H2 & _).
  split; [exact H1|].
  intros Hin. destruct (proj1 (H2 demo_state_node) Hin) as [_ Hne].
  apply Hne. reflexivity.
Defined.

Lemma removeNode_selectedNode (s : Editor) (n : Node.t) :
  selectedNode (removeNode s n) = selectedNode s.
Proof. unfold removeNode. destruct (indexOf _ _); reflexivity. Qed.

Lemma onMouseMove_selectedNode (s : Editor) rect e :
  selectedNode (onMouseMove s rect e) = selectedNode s.
Proof.
  unfold onMouseMove.
  destruct (dragging s), (selectedNode s) eqn:E, (isPanning s);
    simpl; rewrite ?E; reflexivity.
Qed.

Lemma unselected_stays_unselected hypot (s : Editor) (ev : UIEvent) :
  is_pointer_press ev = false -> selectedNode s = None ->
  selectedNode (fst (dispatch hypot s ev)) = None.
Proof.
  intros Hev Hsel.
  destruct ev as [rect e|rect e| |rect e|rect touches|rect touches| |e
                 |rect cx cy type now now'| | |canvas|confirmed| | |
                 |id canvas|a];
    try discriminate Hev; simpl.
  - rewrite onMouseMove_selectedNode. exact Hsel.
  - reflexivity.
  - exact Hsel.
  - unfold onTouchMove. destruct touches as [|t [|t' [|t'' ts]]]; try exact Hsel.
    + rewrite onMouseMove_selectedNode. exact Hsel.
    + unfold handlePinchZoom. destruct (pinch_started s); exact Hsel.
  - reflexivity.
  - unfold onKeyDown, saveScenario. rewrite Hsel.
    destruct (_ || _); [exact Hsel|].
    destruct (String.eqb _ "Escape"); [reflexivity|].
    destruct (_ && _); [|exact Hsel].
    destruct (Nat.eqb _ 0); exact Hsel.
  - unfold onDrop. destruct (String.eqb type EmptyString); exact Hsel.
  - exact Hsel.
  - exact Hsel.
  - unfold centerView. destruct (nodes s); exact Hsel.
  - destruct confirmed; [reflexivity|exact Hsel].
  - unfold saveScenario. destruct (Nat.eqb _ 0); exact Hsel.
  - unfold runScenario. destruct (Nat.eqb _ 0); exact Hsel.
  - unfold validateScenario. destruct (Nat.eqb _ 0); exact Hsel.
  - exact Hsel.
  - unfold removeNode_at. destruct (node_at_address _ _); [|exact Hsel].
    rewrite removeNode_selectedNode. exact Hsel.
Qed.

(** Delete and Backspace act only while a pointer press is in effect.  From
    an editor with no selection (such as a fresh one, or any editor after a
    mouse-up or touch-end), after any events other than a mouse-down or a
    touch-start, pressing Delete or Backspace changes nothing and notifies
    nobody. *)
Theorem delete_key_needs_pointer_press
  hypot (events : list UIEvent) (s : Editor) (k : KeyboardEvent.t) :
  selectedNode s = None ->
  Forall (fun ev => is_pointer_press ev = false) events ->
  is_delete_key k ->
  onKeyDown (dispatch_all hypot s events) k =
  (dispatch_all hypot s events, []).
Proof.
  intros Hsel Hall Hk.
  assert (Hnone : selectedNode (dispatch_all hypot s events) = None).
  { revert s Hsel. induction events as [|ev rest IH]; intros s Hsel; simpl.
    - exact Hsel.
    - inversion Hall as [|? ? Hev Hrest]; subst.
      apply IH; [exact Hrest|].
      apply unselected_stays_unselected; assumption. }
  unfold onKeyDown. rewrite (is_delete_key_test k Hk), Hnone. reflexivity.
Qed.

Lemma delete_key_needs_pointer_press_witness :
  onKeyDown
    (dispatch_all hypot_on_axis demo_editor
       [ MouseDown (DOMRect.mk 0 0) (MouseEvent.mk 350 200 0 false);
         MouseUp; ClickZoomIn ])
    (KeyboardEvent.mk "Delete" false)
  = (dispatch_all hypot_on_axis demo_editor
       [ MouseDown (DOMRect.mk 0 0) (MouseEvent.mk 350 200 0 false);
         MouseUp; ClickZoomIn ], []).
Proof.
  apply (delete_key_needs_pointer_press hypot_on_axis [ClickZoomIn]
           (onMouseUp (onMouseDown demo_editor (DOMRect.mk 0 0)
                                   (MouseEvent.mk 350 200 0 false)))).
  - reflexivity.
  - repeat constructor.
  - left. reflexivity.
Defined.

(** ** Adding and dropping nodes *)


(** A node just added is on top: at every point of its 120 x 80 box, hit
    testing returns it, whatever nodes lie underneath. *)
Theorem added_node_is_topmost
  (s : Editor) (now now' : Z) (type : string) (x y px py : Q) :
  (x <= px /\ px <= x + 120)%Q ->
  (y <= py /\ py <= y + 80)%Q ->
  getNodeAt (addNode s now now' type x y) px py =
  Some (new_node (next_addr s) now now' type x y).
Proof.
  intros [Hx1 Hx2] [Hy1 Hy2].
  unfold getNodeAt. rewrite addNode_appends, getNodeAt_from_snoc.
  assert (Hbox : contains_point (new_node (next_addr s) now now' type x y)
                                px py = true).
  { apply contains_point_in_box. unfold in_box. simpl. tauto. }
  rewrite Hbox. reflexivity.
Qed.

Lemma added_node_is_topmost_witness :
  option_map Node.id
    (getNodeAt (addNode demo_editor 1000 1000 "event" 300 100) 310 120)
  = Some 1000%Z.
Proof.
  rewrite (added_node_is_topmost demo_editor 1000 1000 "event" 300 100 310 120).
  - reflexivity.
  - split; lra.
  - split; lra.
Defined.



(** ** Centring the view *)





(** ** The point under the mouse *)

Lemma onWheel_keeps_point_under_mouse_witness :
  (toGraphX (onWheel demo_editor (DOMRect.mk 8 8)
                     (WheelEvent.mk (-120) 408 308)) 400
   == toGraphX demo_editor 400)%Q.
Proof.
  pose proof (onWheel_keeps_point_under_mouse demo_editor (DOMRect.mk 8 8)
                (WheelEvent.mk (-120) 408 308)) as H.
  cbv zeta in H. destruct H as [Hx _].
  - reflexivity.
  - rewrite <- Hx. reflexivity.
Defined.

(** ** Pinch distance across gestures *)



(** ** Validation verdict *)

Lemma isolatedNodes_empty (s : Editor) :
  isolatedNodes s = [] <->
  (forall n, In n (nodes s) -> ~ is_isolated s n).
Proof.
  split.
  - intros H n Hin Hiso.
    assert (Hn : In n (isolatedNodes s)) by (apply isolatedNodes_In; tauto).
    rewrite H in Hn. exact Hn.
  - intros H. destruct (isolatedNodes s) as [|n rest] eqn:E; [reflexivity|].
    exfalso. assert (Hn : In n (isolatedNodes s)) by (rewrite E; left; reflexivity).
    apply isolatedNodes_In in Hn. destruct Hn as [Hin Hiso].
    exact (H n Hin Hiso).
Qed.

(** On a graph with at least one node, [validateScenario] announces
    success exactly when some node has type start, some node has type end,
    and no node is isolated; otherwise its second notification is a
    warning. *)
Theorem validateScenario_succeeds_iff (s : Editor) :
  nodes s <> [] ->
  (snd (validateScenario s) =
     [ ("Проверка сценария...", "info");
       ("Сценарий прошел проверку успешно", "success") ]
   <->
   (exists n, In n (nodes s) /\ Node.type n = "start") /\
   (exists n, In n (nodes s) /\ Node.type n = "end") /\
   (forall n, In n (nodes s) -> ~ is_isolated s n)).
Proof.
  intros Hne.
  rewrite <- !has_type_exists, <- isolatedNodes_empty.
  unfold validateScenario.
  assert (Hlen : Nat.eqb (List.length (nodes s)) 0 = false).
  { destruct (nodes s); [congruence|reflexivity]. }
  rewrite Hlen. cbn [snd].
  rewrite validation_issues_parts.
  destruct (has_type "start" (nodes s)), (has_type "end" (nodes s)),
    (isolatedNodes s) as [|n rest];
    simpl; split;
    try (intros H; discriminate H);
    try (intros (H1 & H2 & H3); discriminate);
    try (intros _; repeat split; reflexivity);
    try (intros _; reflexivity).
Qed.

Lemma validateScenario_succeeds_iff_witness :
  snd (validateScenario demo_editor) =
  [ ("Проверка сценария...", "info");
    ("Сценарий прошел проверку успешно", "success") ]
  <->
  (exists n, In n (nodes demo_editor) /\ Node.type n = "start") /\
  (exists n, In n (nodes demo_editor) /\ Node.type n = "end") /\
  (forall n, In n (nodes demo_editor) -> ~ is_isolated demo_editor n).
Proof.
  apply (validateScenario_succeeds_iff demo_editor). discriminate.
Defined.
